(** * X-O: the matchmaking and session server (server/server.py)

    A shallow embedding of [server.py] and [serverExceptions.py]: Python
    text as sequences of code points, the socket calls as a state and
    exception monad over an explicit world, the operating system and the
    remote peers as an oracle [Env] that answers every socket call, and the
    game engine (logic/logic.py, not part of these sources) as an
    interface.  [print] calls only write to the server console and are
    left out, and so is [main], the accept loop that starts one
    [client_thread] per connection. *)

From Stdlib Require Import ZArith NArith List Bool Lia String Ascii DecimalString.
Import ListNotations.

Set Implicit Arguments.

(** ** Python text *)

(** A [str] is a sequence of Unicode code points. *)
Definition text := list N.

(** A source literal (without escapes; a newline is [nl]). *)
Definition lit (s : string) : text := map N_of_ascii (list_ascii_of_string s).
Definition nl : text := [10%N].

Definition text_eq_dec : forall a b : text, {a = b} + {a <> b} :=
  list_eq_dec N.eq_dec.

(** [str(n)] for an integer. *)
Definition str_int (z : Z) : text := lit (NilZero.string_of_int (Z.to_int z)).

(** The Unicode character database beyond ASCII: the full upper-case
    mapping and the digit and white-space properties that [str.upper],
    [str.isdigit], [str.strip] and [str.split] consult.  The tables are
    only ever asked about code points from 128 on; the ASCII range is
    written out below. *)
Class Unicode := {
  uni_upper : N -> text;
  uni_isdigit : N -> bool;
  uni_isspace : N -> bool
}.

Section PyStr.
Context {U : Unicode}.
Local Open Scope N_scope.

Definition between (lo hi c : N) : bool := (lo <=? c) && (c <=? hi).

(** White space of [str]: TAB..CR, FS..US and the blank in ASCII. *)
Definition isspace_char (c : N) : bool :=
  if c <? 128 then between 9 13 c || between 28 31 c || (c =? 32)
  else uni_isspace c.

Definition isdigit_char (c : N) : bool :=
  if c <? 128 then between 48 57 c else uni_isdigit c.

Definition upper_char (c : N) : text :=
  if c <? 128 then (if between 97 122 c then [c - 32] else [c])
  else uni_upper c.

(** [s.upper()] *)
Definition upper (s : text) : text := flat_map upper_char s.

(** [s.isdigit()]: every character is a digit and there is at least one. *)
Definition isdigit (s : text) : bool :=
  match s with
  | [] => false
  | _ => forallb isdigit_char s
  end.

Fixpoint lstrip (s : text) : text :=
  match s with
  | [] => []
  | c :: r => if isspace_char c then lstrip r else s
  end.

Definition rstrip (s : text) : text := rev (lstrip (rev s)).

(** [s.strip()] *)
Definition strip (s : text) : text := lstrip (rstrip s).

(** [s.startswith(p)] *)
Fixpoint startswith (s p : text) : bool :=
  match p, s with
  | [], _ => true
  | _ :: _, [] => false
  | a :: p', b :: s' => (a =? b) && startswith s' p'
  end.

(** [s.split()]: the maximal runs of non-space characters, in order.
    [word] holds the run being read, last character first. *)
Fixpoint split_from (word : text) (s : text) : list text :=
  match s with
  | [] => match word with [] => [] | _ => [rev word] end
  | c :: r =>
      if isspace_char c
      then match word with
           | [] => split_from [] r
           | _ => rev word :: split_from [] r
           end
      else split_from (c :: word) r
  end.

Definition split (s : text) : list text := split_from [] s.

End PyStr.

(** Letter case in ASCII: what "in any letter case" means for a word
    of the protocol. *)
Definition ascii_upper (c : N) : N :=
  if between 97 122 c then (c - 32)%N else c.

(** A token made of the ASCII digits 0-9 only, at least one. *)
Definition ascii_digits (m : text) : bool :=
  match m with
  | [] => false
  | _ => forallb (between 48 57) m
  end.

(** ** [bytes.decode()]: strict UTF-8 *)

Section Utf8.
Local Open Scope N_scope.

Definition cont (b : N) : bool := between 128 191 b.
Definition low6 (b : N) : N := b - 128.

Fixpoint utf8_decode (bs : list N) : option text :=
  match bs with
  | [] => Some []
  | b0 :: r0 =>
    if b0 <? 128 then option_map (cons b0) (utf8_decode r0)
    else if between 194 223 b0 then
      match r0 with
      | b1 :: r1 =>
        if cont b1
        then option_map (cons ((b0 - 192) * 64 + low6 b1)) (utf8_decode r1)
        else None
      | _ => None
      end
    else if between 224 239 b0 then
      match r0 with
      | b1 :: b2 :: r2 =>
        if (if b0 =? 224 then between 160 191 b1
            else if b0 =? 237 then between 128 159 b1
            else cont b1) && cont b2
        then option_map
               (cons ((b0 - 224) * 4096 + low6 b1 * 64 + low6 b2))
               (utf8_decode r2)
        else None
      | _ => None
      end
    else if between 240 244 b0 then
      match r0 with
      | b1 :: b2 :: b3 :: r3 =>
        if (if b0 =? 240 then between 144 191 b1
            else if b0 =? 244 then between 128 143 b1
            else cont b1) && cont b2 && cont b3
        then option_map
               (cons ((b0 - 240) * 262144 + low6 b1 * 4096
                      + low6 b2 * 64 + low6 b3))
               (utf8_decode r3)
        else None
      | _ => None
      end
    else None
  end.

(** What the decoder reports about the first sequence it cannot decode:
    the byte the sequence begins with, the positions [f_start, f_stop)
    it is blamed on, and the reason. *)
Record Utf8Fault : Type := mkFault {
  f_byte : N;
  f_start : N;
  f_stop : N;
  f_reason : text
}.

Fixpoint utf8_fault (pos : N) (bs : list N) : option Utf8Fault :=
  match bs with
  | [] => None
  | b0 :: r0 =>
    let blame n reason := Some (mkFault b0 pos (pos + n) reason) in
    let ended := lit "unexpected end of data" in
    let broken := lit "invalid continuation byte" in
    if b0 <? 128 then utf8_fault (pos + 1) r0
    else if between 194 223 b0 then
      match r0 with
      | [] => blame 1 ended
      | b1 :: r1 =>
        if cont b1 then utf8_fault (pos + 2) r1 else blame 1 broken
      end
    else if between 224 239 b0 then
      match r0 with
      | [] => blame 1 ended
      | b1 :: r1 =>
        if (if b0 =? 224 then between 160 191 b1
            else if b0 =? 237 then between 128 159 b1
            else cont b1)
        then match r1 with
             | [] => blame 2 ended
             | b2 :: r2 =>
               if cont b2 then utf8_fault (pos + 3) r2 else blame 2 broken
             end
        else blame 1 broken
      end
    else if between 240 244 b0 then
      match r0 with
      | [] => blame 1 ended
      | b1 :: r1 =>
        if (if b0 =? 240 then between 144 191 b1
            else if b0 =? 244 then between 128 143 b1
            else cont b1)
        then match r1 with
             | [] => blame 2 ended
             | b2 :: r2 =>
               if cont b2
               then match r2 with
                    | [] => blame 3 ended
                    | b3 :: r3 =>
                      if cont b3 then utf8_fault (pos + 4) r3
                      else blame 3 broken
                    end
               else blame 2 broken
             end
        else blame 1 broken
      end
    else blame 1 (lit "invalid start byte")
  end.

(** [%02x] of a byte. *)
Definition hex_digit (n : N) : N := if n <? 10 then 48 + n else 87 + n.
Definition hex2 (b : N) : text := [hex_digit (b / 16); hex_digit (b mod 16)].

(** [str(e)] of the UnicodeDecodeError raised for [data]. *)
Definition utf8_error (data : list N) : text :=
  match utf8_fault 0 data with
  | None => []
  | Some f =>
    if f_stop f =? f_start f + 1 then
      lit "'utf-8' codec can't decode byte 0x" ++ hex2 (f_byte f)
      ++ lit " in position " ++ str_int (Z.of_N (f_start f))
      ++ lit ": " ++ f_reason f
    else
      lit "'utf-8' codec can't decode bytes in position "
      ++ str_int (Z.of_N (f_start f)) ++ lit "-"
      ++ str_int (Z.of_N (f_stop f - 1)) ++ lit ": " ++ f_reason f
  end.

End Utf8.

(** ** Connections, addresses and the exceptions of serverExceptions.py *)

(** A socket object; [==] on sockets is object identity. *)
Definition Conn := nat.

(** What [getpeername] returns for an AF_INET socket: (host, port). *)
Definition Addr := (text * Z)%type.

Definition addr_eq_dec : forall a b : Addr, {a = b} + {a <> b}.
Proof. decide equality; [apply Z.eq_dec | apply text_eq_dec]. Defined.

Definition unknown_addr : Addr := (lit "unknown", 0%Z).

(** [str] of an address tuple, as an f-string prints it (hosts are
    numeric literals or the word unknown, so [repr] only adds quotes). *)
Definition repr_addr (a : Addr) : text :=
  lit "('" ++ fst a ++ lit "', " ++ str_int (snd a) ++ lit ")".

Inductive exn : Type :=
| PlayerDisconnectedError (player_addr : Addr) (message : text)
| PlayerQuitError (player_addr : Addr) (message : text)
| InvalidMessageError (player_addr : Addr) (message : text)
| TimeoutWaitingPlayerError (player_addr : Addr) (message : text)
| SocketTimeout                  (* socket.timeout raised by recv *)
| OtherError (detail : text).    (* OSError, ValueError, UnicodeDecodeError,
                                    an engine fault: what only
                                    [except Exception] catches *)

(** [str(e)]: the ServerError classes pass [f"{message}: {player_addr}"]
    to [Exception.__init__]. *)
Definition str_exn (e : exn) : text :=
  match e with
  | PlayerDisconnectedError a m | PlayerQuitError a m
  | InvalidMessageError a m | TimeoutWaitingPlayerError a m =>
      m ++ lit ": " ++ repr_addr a
  | SocketTimeout => lit "timed out"
  | OtherError d => d
  end.

(** ** The world: sockets, the waiting list and what went over the wire *)

Inductive Event : Type :=
| Sendall (c : Conn) (t : text) (ok : bool)   (* sock.sendall(t.encode()) *)
| Send (c : Conn) (t : text) (ok : bool)      (* sock.send(t.encode()) *)
| Close (c : Conn) (ok : bool)                (* sock.close() *)
| Start (p1 p2 : Conn).                       (* Thread(target=handle_game,
                                                 args=(p1, p2)).start() *)

Record World : Type := mkWorld {
  clock : nat;                      (* socket calls made so far *)
  deadline : Conn -> option Z;      (* each socket's timeout; None blocks *)
  closed : Conn -> bool;            (* each socket's closed flag *)
  wire : list Event;                (* oldest first *)
  clients_waiting : list Conn       (* the global list, oldest first *)
}.

(** What one [recv] call does. *)
Inductive Incoming : Type :=
| Bytes (data : list N)         (* returns [data]; empty on orderly close *)
| TimedOut                      (* raises socket.timeout *)
| RecvError (detail : text).    (* raises another OSError *)

(** The operating system and the peers.  Every socket call is answered
    according to the instant at which it is made (the number of socket
    calls before it); [Some d] means the call raises an exception whose
    [str] is [d] (for [os_sendall] this covers the whole statement
    [sock.sendall(text.encode())]). *)
Record Env : Type := mkEnv {
  peername : Conn -> Addr;
  os_getpeername : nat -> Conn -> option text;
  os_sendall : nat -> Conn -> option text;
  os_recv : nat -> Conn -> Incoming;
  os_settimeout : nat -> Conn -> option text;
  os_close : nat -> Conn -> option text
}.

Definition upd {A : Type} (f : Conn -> A) (c : Conn) (v : A) : Conn -> A :=
  fun c' => if Nat.eqb c' c then v else f c'.

(** ** Computations that read and change the world and may raise *)

Inductive Res (A : Type) : Type :=
| Ret (a : A)
| Exc (e : exn).
Arguments Exc {A} e.

Definition M (A : Type) : Type := World -> Res A * World.

Definition ret {A} (a : A) : M A := fun w => (Ret a, w).
Definition raise {A} (e : exn) : M A := fun w => (Exc e, w).

Definition bind {A B} (m : M A) (k : A -> M B) : M B :=
  fun w => match m w with
           | (Ret a, w') => k a w'
           | (Exc e, w') => (Exc e, w')
           end.

(** [try: m  except ... as e: h e]; a handler re-raises what it does not
    catch. *)
Definition try_except {A} (m : M A) (h : exn -> M A) : M A :=
  fun w => match m w with
           | (Ret a, w') => (Ret a, w')
           | (Exc e, w') => h e w'
           end.

(** [try: m  finally: f] *)
Definition try_finally {A} (m : M A) (f : M unit) : M A :=
  fun w => match m w with
           | (r, w') => match f w' with
                        | (Ret _, w'') => (r, w'')
                        | (Exc e, w'') => (Exc e, w'')
                        end
           end.

(** [try: m  except Exception: pass] *)
Definition swallow (m : M unit) : M unit := try_except m (fun _ => ret tt).

Declare Scope py_scope.
Delimit Scope py_scope with py.
Notation "x <- m ;; k" := (bind m (fun x => k))
  (at level 61, m at next level, right associativity) : py_scope.
Notation "m ;; k" := (bind m (fun _ => k))
  (at level 61, right associativity) : py_scope.
Local Open Scope py_scope.

(** A computation never turns the clock back ([grows]); it makes at least
    one socket call ([strict]). *)
Definition grows {A} (m : M A) : Prop :=
  forall w, clock w <= clock (snd (m w)).

Definition strict {A} (m : M A) : Prop :=
  forall w, clock w < clock (snd (m w)).

(** ** The socket calls *)

Section Transport.
Variable env : Env.

Definition tick : M nat :=
  fun w => (Ret (clock w),
            mkWorld (S (clock w)) (deadline w) (closed w) (wire w)
                    (clients_waiting w)).

Definition emit (ev : Event) : M unit :=
  fun w => (Ret tt,
            mkWorld (clock w) (deadline w) (closed w) (wire w ++ [ev])
                    (clients_waiting w)).

Definition set_deadline (c : Conn) (v : option Z) : M unit :=
  fun w => (Ret tt,
            mkWorld (clock w) (upd (deadline w) c v) (closed w) (wire w)
                    (clients_waiting w)).

Definition set_closed (c : Conn) : M unit :=
  fun w => (Ret tt,
            mkWorld (clock w) (deadline w) (upd (closed w) c true) (wire w)
                    (clients_waiting w)).

Definition getpeername (c : Conn) : M Addr :=
  t <- tick ;;
  match os_getpeername env t c with
  | None => ret (peername env c)
  | Some d => raise (OtherError d)
  end.

Definition sendall (c : Conn) (s : text) : M unit :=
  t <- tick ;;
  match os_sendall env t c with
  | None => emit (Sendall c s true)
  | Some d => emit (Sendall c s false) ;; raise (OtherError d)
  end.

Definition send (c : Conn) (s : text) : M unit :=
  t <- tick ;;
  match os_sendall env t c with
  | None => emit (Send c s true)
  | Some d => emit (Send c s false) ;; raise (OtherError d)
  end.

(** [sock.settimeout(v)]: a negative value is refused with ValueError
    before anything changes; otherwise the socket object records the
    timeout and then switches the descriptor, which is where an OSError
    can come from. *)
Definition settimeout (c : Conn) (v : option Z) : M unit :=
  match v with
  | Some z =>
      if (z <? 0)%Z then raise (OtherError (lit "Timeout value out of range"))
      else set_deadline c v
  | None => set_deadline c v
  end ;;
  t <- tick ;;
  match os_settimeout env t c with
  | None => ret tt
  | Some d => raise (OtherError d)
  end.

(** [sock.recv(bufsize)]: the environment says what the call returns, at
    most [bufsize] bytes of what has arrived. *)
Definition recv (c : Conn) (bufsize : Z) : M (list N) :=
  t <- tick ;;
  match os_recv env t c with
  | Bytes data => ret data
  | TimedOut => raise SocketTimeout
  | RecvError d => raise (OtherError d)
  end.

(** [sock.close()]: the object is marked closed, then the descriptor is
    released, which may raise. *)
Definition close (c : Conn) : M unit :=
  set_closed c ;;
  t <- tick ;;
  match os_close env t c with
  | None => emit (Close c true)
  | Some d => emit (Close c false) ;; raise (OtherError d)
  end.

(** [data.decode()] *)
Definition decode (data : list N) : M text :=
  match utf8_decode data with
  | Some s => ret s
  | None => raise (OtherError (utf8_error data))
  end.

(** ** server.py: constants and transport primitives *)

Definition BUFFER : Z := 1024.
Definition MOVE_TIMEOUT_SECONDS : Z := 30.

(** [try: addr = sock.getpeername()  except Exception: addr = ("unknown", 0)] *)
Definition addr_or_unknown (sock : Conn) : M Addr :=
  try_except (getpeername sock) (fun _ => ret unknown_addr).

(** Every caller passes a [str], so the [isinstance] conversion never
    runs. *)
Definition safe_send (sock : Conn) (s : text) : M unit :=
  try_except (sendall sock s)
    (fun e =>
       addr <- addr_or_unknown sock ;;
       raise (PlayerDisconnectedError addr (lit "send failed: " ++ str_exn e))).

Context {U : Unicode}.

Definition recv_with_timeout (sock : Conn) (timeout_seconds : Z) : M text :=
  try_finally
    (try_except
       (settimeout sock (Some timeout_seconds) ;;
        data <- recv sock BUFFER ;;
        match data with
        | [] =>
            addr <- addr_or_unknown sock ;;
            raise (PlayerDisconnectedError addr (lit "client closed connection"))
        | _ => s <- decode data ;; ret (strip s)
        end)
       (fun e =>
          match e with
          | SocketTimeout =>
              addr <- addr_or_unknown sock ;;
              raise (TimeoutWaitingPlayerError addr
                       (lit "Timed out after " ++ str_int timeout_seconds
                        ++ lit " seconds"))
          | PlayerDisconnectedError _ _ => raise e
          | _ =>
              addr <- addr_or_unknown sock ;;
              raise (PlayerDisconnectedError addr
                       (lit "recv failed: " ++ str_exn e))
          end))
    (swallow (settimeout sock None)).

(** The identity that [addr_or_unknown] attaches at instant [t]. *)
Definition resolved (t : nat) (c : Conn) : Addr :=
  match os_getpeername env t c with
  | None => peername env c
  | Some _ => unknown_addr
  end.

(** The world [n] socket calls later, with [ev] added to the wire. *)
Definition advance (n : nat) (ev : list Event) (w : World) : World :=
  mkWorld (n + clock w) (deadline w) (closed w) (wire w ++ ev)
          (clients_waiting w).

End Transport.

(** ** The game engine (logic/logic.py), as the session uses it *)

(** What one call [game.make_move(player, move)] does.  The game object
    is mutated in place, so every outcome carries the game as the call
    leaves it. *)
Inductive MoveOutcome (G : Type) : Type :=
| Moved (g : G)                           (* returns normally *)
| IllegalMove (name detail : text) (g : G)
    (* raises InvalidMoveError, OutOfRangeError, CellOccupiedError or
       NotYourTurnError; [name] is [type(e).__name__], [detail] is [str(e)] *)
| PlayerNotRecognized (detail : text) (g : G)
| GameOver (detail : text) (g : G)
| EngineFault (detail : text) (g : G).    (* any other exception *)

(** Modelled from the spec: the Game Engine class [TicTacToe] of
    logic/logic.py and its exceptions (logic/logicExceptions.py) are not
    among the sources; this is the interface of section 6 of the
    specification, with exactly the members [handle_game] touches.
    The constructor and the reads are total (the session looks up the
    symbols of p1 and p2 only, which the engine assigns); [make_move] is
    the one member whose exceptions the session handles.  [winner] is
    [None] when the attribute is missing or [None]. *)
Class Engine : Type := {
  game : Type;
  TicTacToe : Conn -> Conn -> game;
  turn : game -> Conn;
  symbols : game -> Conn -> text;
  print_board : game -> text;
  make_move : game -> Conn -> text -> MoveOutcome game;
  winner : game -> option text
}.

(** ** server.py: [handle_game] *)

(** How an iteration of [while True] ends. *)
Inductive Ctl : Type := Continue | Break.

(** What lines 121-134 leave behind: [move_arg], or the [continue] after
    the format notice. *)
Inductive Parsed : Type :=
| MoveArg (move_arg : text)
| Reloop.

Section Session.
Context {U : Unicode} {E : Engine}.
Variable env : Env.
Variables p1 p2 : Conn.

(** [for s in (p1, p2): safe_send(s, msg)] *)
Definition broadcast (msg : text) : M unit :=
  safe_send env p1 msg ;; safe_send env p2 msg.

(** [len(parts) != 2 or not parts[1].isdigit()] *)
Definition malformed (parts : list text) : bool :=
  negb (Nat.eqb (List.length parts) 2) || negb (isdigit (nth 1 parts [])).

(** Lines 120-134. *)
Definition parse_reply (current : Conn) (move_text : text) : M Parsed :=
  if text_eq_dec (upper move_text) (lit "QUIT") then
    addr <- getpeername env current ;;
    raise (PlayerQuitError addr (lit "Player quit"))
  else if startswith (upper move_text) (lit "MOVE ") then
    let parts := split move_text in
    if malformed parts then
      addr <- getpeername env current ;;
      raise (InvalidMessageError addr (lit "Malformed MOVE: " ++ move_text))
    else ret (MoveArg (nth 1 parts []))
  else if isdigit move_text then ret (MoveArg move_text)
  else
    safe_send env current (lit "Invalid move format: " ++ move_text ++ nl) ;;
    ret Reloop.

(** [if sym == winner: "You win!" else: "You lose!"], inside its
    [try ... except Exception: pass]. *)
Definition verdict (g : game) (w : text) (s : Conn) : M unit :=
  swallow
    (if text_eq_dec (symbols g s) w
     then safe_send env s (lit "You win!" ++ nl)
     else safe_send env s (lit "You lose!" ++ nl)).

(** Lines 162-177: [Break] is the [break]; [Continue] is falling off the
    end of the [try] body.  An empty string is falsy. *)
Definition announce (g : game) : M Ctl :=
  match winner g with
  | Some (c :: r) =>
      let w := c :: r in
      (if text_eq_dec w (lit "Draw")
       then broadcast (lit "Game over! It's a draw." ++ nl)
       else verdict g w p1 ;; verdict g w p2) ;;
      ret Break
  | _ => ret Continue
  end.

(** Lines 137-177: apply the move and react to the engine's outcome. *)
Definition play (g : game) (current : Conn) (move_arg : text)
  : M (Ctl * game) :=
  match make_move g current move_arg with
  | IllegalMove name detail g' =>
      safe_send env current
        (lit "ERROR: " ++ name ++ lit ": " ++ detail ++ nl) ;;
      ret (Continue, g')
  | PlayerNotRecognized detail g' =>
      safe_send env current
        (lit "ERROR: Player not recognized: " ++ detail ++ nl) ;;
      ret (Break, g')
  | GameOver detail g' =>
      let board_final := print_board g' in
      let last s :=
        swallow (safe_send env s (board_final ++ nl) ;;
                 safe_send env s (lit "GAME OVER: " ++ detail ++ nl)) in
      last p1 ;; last p2 ;;
      ret (Break, g')
  | EngineFault detail _ => raise (OtherError detail)
  | Moved g' =>
      broadcast (print_board g' ++ nl) ;;
      c <- announce g' ;;
      ret (c, g')
  end.

(** Lines 120-177, from the text [recv_with_timeout] returned. *)
Definition reply (g : game) (current : Conn) (move_text : text)
  : M (Ctl * game) :=
  p <- parse_reply current move_text ;;
  match p with
  | MoveArg move_arg => play g current move_arg
  | Reloop => ret (Continue, g)
  end.

(** Lines 108-118: boards, prompts and the receive. *)
Definition ask (g : game) : M text :=
  broadcast (print_board g ++ nl) ;;
  let current := turn g in
  let other := if Nat.eqb current p1 then p2 else p1 in
  safe_send env current (lit "Your move (0-8) or QUIT:" ++ nl) ;;
  safe_send env other (lit "Waiting for opponent..." ++ nl) ;;
  recv_with_timeout env current MOVE_TIMEOUT_SECONDS.

(** The body of the outer [try] (lines 108-177). *)
Definition body (g : game) : M (Ctl * game) :=
  move_text <- ask g ;;
  reply g (turn g) move_text.

(** [remaining = p2 if e.player_addr == p1.getpeername() else p1;
     safe_send(remaining, notice)] inside [try ... except Exception: pass]. *)
Definition notify_remaining (player_addr : Addr) (notice : text) : M unit :=
  swallow
    (a1 <- getpeername env p1 ;;
     let remaining := if addr_eq_dec player_addr a1 then p2 else p1 in
     safe_send env remaining notice).

(** The [except] clauses of the outer [try] (lines 179-226).  [current]
    is the local bound in the body; InvalidMessageError is only raised
    after that binding and before the engine is touched, so the loop
    goes on with the game [g] the iteration started with. *)
Definition handlers (g : game) (current : Conn) (e : exn) : M (Ctl * game) :=
  match e with
  | TimeoutWaitingPlayerError a _ =>
      notify_remaining a (lit "OPPONENT_TIMEOUT - you win" ++ nl) ;;
      ret (Break, g)
  | PlayerQuitError a _ =>
      notify_remaining a (lit "OPPONENT_QUIT - you win" ++ nl) ;;
      ret (Break, g)
  | PlayerDisconnectedError a _ =>
      notify_remaining a (lit "OPPONENT_DISCONNECTED - you win" ++ nl) ;;
      ret (Break, g)
  | InvalidMessageError _ _ =>
      swallow (safe_send env current
                 (lit "INVALID_MESSAGE: " ++ str_exn e ++ nl)) ;;
      ret (Continue, g)
  | _ =>
      swallow (safe_send env p1 (lit "Server error: " ++ str_exn e ++ nl)) ;;
      swallow (safe_send env p2 (lit "Server error: " ++ str_exn e ++ nl)) ;;
      ret (Break, g)
  end.

(** One pass through [while True]. *)
Definition iteration (g : game) : M (Ctl * game) :=
  try_except (body g) (handlers g (turn g)).

(** [while True]: [None] when the fuel runs out before a [break]. *)
Fixpoint game_loop (fuel : nat) (g : game) : M (option unit) :=
  match fuel with
  | O => ret None
  | S n =>
      r <- iteration g ;;
      match r with
      | (Break, _) => ret (Some tt)
      | (Continue, g') => game_loop n g'
      end
  end.

(** [for s in (p1, p2): try: s.close()  except: pass] *)
Definition close_both : M unit :=
  swallow (close env p1) ;; swallow (close env p2).

(** Lines 105-234: the loop and what follows it. *)
Definition run (fuel : nat) (g : game) : M (option unit) :=
  r <- game_loop fuel g ;;
  match r with
  | Some _ => close_both ;; ret (Some tt)
  | None => ret None
  end.

(** Lines 90-103: [true] when both greetings went out. *)
Definition greet (g : game) : M bool :=
  try_except
    (safe_send env p1 (lit "Game start! You are " ++ symbols g p1 ++ nl) ;;
     safe_send env p2 (lit "Game start! You are " ++ symbols g p2 ++ nl) ;;
     ret true)
    (fun e =>
       match e with
       | PlayerDisconnectedError _ _ => close_both ;; ret false
       | _ => raise e
       end).

Definition handle_game (fuel : nat) : M (option unit) :=
  let g := TicTacToe p1 p2 in
  started <- greet g ;;
  if started then run fuel g else ret (Some tt).

End Session.

(** The loop-level failures that end a session and the notice each one
    calls for (section 4.3 of the specification). *)
Definition terminal_notice (e : exn) : option (Addr * text) :=
  match e with
  | TimeoutWaitingPlayerError a _ =>
      Some (a, lit "OPPONENT_TIMEOUT - you win" ++ nl)
  | PlayerQuitError a _ => Some (a, lit "OPPONENT_QUIT - you win" ++ nl)
  | PlayerDisconnectedError a _ =>
      Some (a, lit "OPPONENT_DISCONNECTED - you win" ++ nl)
  | _ => None
  end.

(** The failures that the transport primitives signal. *)
Definition transport_failure (e : exn) : Prop :=
  match e with
  | PlayerDisconnectedError _ _ | TimeoutWaitingPlayerError _ _ => True
  | _ => False
  end.

(** ** server.py: [client_thread] *)

Section Matchmaking.
Variable env : Env.

Definition set_waiting (q : list Conn) : M unit :=
  fun w => (Ret tt, mkWorld (clock w) (deadline w) (closed w) (wire w) q).

(** [clients_waiting.append(conn)] *)
Definition append_waiting (conn : Conn) : M unit :=
  fun w => set_waiting (clients_waiting w ++ [conn]) w.

(** [len(clients_waiting)] *)
Definition len_waiting : M nat :=
  fun w => (Ret (List.length (clients_waiting w)), w).

(** [clients_waiting.pop(0)] *)
Definition pop_waiting : M Conn :=
  fun w => match clients_waiting w with
           | [] => (Exc (OtherError (lit "pop from empty list")), w)
           | c :: q => bind (set_waiting q) (fun _ => ret c) w
           end.

(** The block under [with lock] (lines 245-250); the lock makes it one
    indivisible step on the waiting list. *)
Definition offer (conn : Conn) : M unit :=
  append_waiting conn ;;
  n <- len_waiting ;;
  if 2 <=? n then
    p1 <- pop_waiting ;;
    p2 <- pop_waiting ;;
    emit (Start p1 p2)
  else ret tt.

Definition client_thread (conn : Conn) : M unit :=
  welcomed <-
    try_except
      (send env conn (lit "Welcome! Waiting for opponent..." ++ nl) ;;
       ret true)
      (fun _ => close env conn ;; ret false) ;;
  if welcomed then offer conn else ret tt.

(** Workers taking the lock one after another. *)
Fixpoint offer_all (conns : list Conn) : M unit :=
  match conns with
  | [] => ret tt
  | c :: rest => offer c ;; offer_all rest
  end.

(** Accepted connections, each served by its own worker thread, in the
    order in which the workers run; an exception ends the worker that
    raised it and no other. *)
Fixpoint serve (conns : list Conn) : M unit :=
  match conns with
  | [] => ret tt
  | c :: rest => try_except (client_thread c) (fun _ => ret tt) ;; serve rest
  end.

(** The connections handed to sessions so far, in pairing order. *)
Fixpoint started (evs : list Event) : list Conn :=
  match evs with
  | [] => []
  | Start a b :: r => a :: b :: started r
  | _ :: r => started r
  end.

Definition welcome : text := lit "Welcome! Waiting for opponent..." ++ nl.

End Matchmaking.

(** ** Sample instances, to run the server on concrete inputs *)

(** An excerpt of the character database, exact on Latin-1 and on the
    entries listed: sharp s, micro sign, y with diaeresis and dotless i
    for [upper], superscript and Arabic-Indic digits, the Latin-1 and
    general punctuation spaces.  Other characters are left as they are. *)
Definition sample_unicode : Unicode := {|
  uni_upper := fun c =>
    if N.eqb c 305 then [73%N]
    else if N.eqb c 223 then [83%N; 83%N]
    else if N.eqb c 181 then [924%N]
    else if N.eqb c 255 then [376%N]
    else if between 224 254 c && negb (N.eqb c 247) then [(c - 32)%N]
    else [c];
  uni_isdigit := fun c =>
    N.eqb c 178 || N.eqb c 179 || N.eqb c 185 || between 1632 1641 c;
  uni_isspace := fun c =>
    N.eqb c 133 || N.eqb c 160 || N.eqb c 5760 || between 8192 8202 c
    || N.eqb c 8232 || N.eqb c 8233 || N.eqb c 8239 || N.eqb c 8287
    || N.eqb c 12288
|}.

Definition world0 : World :=
  mkWorld 0 (fun _ => None) (fun _ => false) [] [].

(** The UTF-8 bytes of an ASCII literal. *)
Definition bytes_of (s : string) : list N := lit s.

(** Two peers on the loopback network. *)
Definition sample_peer (c : Conn) : Addr := (lit "127.0.0.1", 50000 + Z.of_nat c)%Z.

(** An environment in which no call fails; [script] says what arrives at
    each instant. *)
Definition calm (script : nat -> Conn -> Incoming) : Env :=
  mkEnv sample_peer (fun _ _ => None) (fun _ _ => None) script
        (fun _ _ => None) (fun _ _ => None).

(** ** A sample engine, to run sessions on concrete games *)

(** Modelled from the spec: logic/logic.py is not among the sources.
    This stand-in follows the engine contract of the specification
    (board, turn owner, symbols X and O, the six signalled outcomes, the
    winner value) and serves only to evaluate the session on examples. *)
Record Ttt : Type := mkTtt {
  t_p1 : Conn;
  t_p2 : Conn;
  t_cells : list (option bool);     (* nine cells; [Some true] is X *)
  t_turn : Conn;
  t_winner : option text
}.

Definition ttt_new (a b : Conn) : Ttt :=
  mkTtt a b (repeat None 9) a None.

Definition ttt_symbol (g : Ttt) (c : Conn) : text :=
  if Nat.eqb c (t_p1 g) then lit "X"
  else if Nat.eqb c (t_p2 g) then lit "O" else lit "?".

Definition ttt_cell (m : option bool) : N :=
  match m with
  | Some true => 88%N
  | Some false => 79%N
  | None => 46%N
  end.

Definition ttt_board (g : Ttt) : text :=
  match map ttt_cell (t_cells g) with
  | [a; b; c; d; e; f; x; y; z] =>
      [a; b; c] ++ nl ++ [d; e; f] ++ nl ++ [x; y; z]
  | l => l
  end.

Definition ttt_lines : list (list nat) :=
  [[0; 1; 2]; [3; 4; 5]; [6; 7; 8]; [0; 3; 6]; [1; 4; 7]; [2; 5; 8];
   [0; 4; 8]; [2; 4; 6]].

Definition ttt_has (cells : list (option bool)) (x : bool) (i : nat) : bool :=
  match nth i cells None with
  | Some y => Bool.eqb x y
  | None => false
  end.

Definition ttt_wins (cells : list (option bool)) (x : bool) : bool :=
  existsb (forallb (ttt_has cells x)) ttt_lines.

Definition ttt_full (cells : list (option bool)) : bool :=
  forallb (fun m => match m with Some _ => true | None => false end) cells.

Definition ttt_index (move : text) : option nat :=
  if ascii_digits move
  then Some (fold_left (fun acc c => 10 * acc + N.to_nat (c - 48)) move 0)
  else None.

Fixpoint ttt_put (cells : list (option bool)) (i : nat) (x : bool) :=
  match cells, i with
  | [], _ => []
  | _ :: r, O => Some x :: r
  | m :: r, S j => m :: ttt_put r j x
  end.

Definition ttt_move (g : Ttt) (player : Conn) (move : text)
  : MoveOutcome Ttt :=
  if negb (Nat.eqb player (t_p1 g) || Nat.eqb player (t_p2 g)) then
    PlayerNotRecognized (lit "Unknown player") g
  else match t_winner g with
  | Some _ => GameOver (lit "The game is already over") g
  | None =>
    if negb (Nat.eqb player (t_turn g)) then
      IllegalMove (lit "NotYourTurnError") (lit "It is not your turn") g
    else match ttt_index move with
    | None => IllegalMove (lit "InvalidMoveError") (lit "Move must be a number") g
    | Some i =>
      if Nat.ltb 8 i then
        IllegalMove (lit "OutOfRangeError") (lit "Move must be between 0 and 8") g
      else match nth i (t_cells g) None with
      | Some _ =>
          IllegalMove (lit "CellOccupiedError") (lit "Cell already occupied") g
      | None =>
          let x := Nat.eqb player (t_p1 g) in
          let cells := ttt_put (t_cells g) i x in
          let next := if x then t_p2 g else t_p1 g in
          Moved (mkTtt (t_p1 g) (t_p2 g) cells next
                   (if ttt_wins cells x then Some (if x then lit "X" else lit "O")
                    else if ttt_full cells then Some (lit "Draw")
                    else None))
      end
    end
  end.

Definition sample_engine : Engine := {|
  game := Ttt;
  TicTacToe := ttt_new;
  turn := t_turn;
  symbols := ttt_symbol;
  print_board := ttt_board;
  make_move := ttt_move;
  winner := t_winner
|}.

#[local] Existing Instance sample_unicode.
#[local] Existing Instance sample_engine.

Definition g0 : game := ttt_new 1 2.

(** Nobody ever answers. *)
Definition silent : Env := calm (fun _ _ => TimedOut).

(** Whoever is asked answers with the same bytes. *)
Definition answering (data : list N) : Env := calm (fun _ _ => Bytes data).

(** X is one move away from completing the top row. *)
Definition top_row_open : game :=
  mkTtt 1 2
    [Some true; Some true; None; Some false; Some false; None; None; None; None]
    1 None.

(** p1's connection is reset after the greetings: from instant 2 on,
    sending to it and asking for its peer name both fail. *)
Definition p1_reset : Env :=
  mkEnv sample_peer
    (fun t c => if Nat.eqb c 1 && Nat.leb 2 t
                then Some (lit "[Errno 107] Transport endpoint is not connected")
                else None)
    (fun t c => if Nat.eqb c 1 && Nat.leb 2 t
                then Some (lit "[Errno 32] Broken pipe") else None)
    (fun _ _ => TimedOut) (fun _ _ => None) (fun _ _ => None).

(** The same for p2. *)
Definition p2_reset : Env :=
  mkEnv sample_peer
    (fun t c => if Nat.eqb c 2 && Nat.leb 2 t
                then Some (lit "[Errno 107] Transport endpoint is not connected")
                else None)
    (fun t c => if Nat.eqb c 2 && Nat.leb 2 t
                then Some (lit "[Errno 32] Broken pipe") else None)
    (fun _ _ => TimedOut) (fun _ _ => None) (fun _ _ => None).

(** p1 sends QUIT and its connection is reset right after: the bytes are
    read at instant 5, and from instant 7 on p1's peer name cannot be
    resolved and nothing can be sent to it. *)
Definition quit_then_reset : Env :=
  mkEnv sample_peer
    (fun t c => if Nat.eqb c 1 && Nat.leb 7 t
                then Some (lit "[Errno 107] Transport endpoint is not connected")
                else None)
    (fun t c => if Nat.eqb c 1 && Nat.leb 7 t
                then Some (lit "[Errno 32] Broken pipe") else None)
    (fun _ _ => Bytes (bytes_of "QUIT")) (fun _ _ => None) (fun _ _ => None).

(** A whole game: X takes the top row while O fills the middle one.  The
    reads fall at instants 7, 16, 25, 34 and 43 of the session. *)
Definition top_row_game : Env :=
  calm (fun t _ =>
          match t with
          | 7 => Bytes (bytes_of "0")
          | 16 => Bytes (bytes_of "MOVE 3")
          | 25 => Bytes (bytes_of " 1 ")
          | 34 => Bytes (bytes_of "move  4")
          | 43 => Bytes (bytes_of "2")
          | _ => TimedOut
          end).

(** The welcome to the first connection fails; the next two are paired. *)
Definition first_send_fails : Env :=
  mkEnv sample_peer (fun _ _ => None)
    (fun t _ => if Nat.eqb t 0 then Some (lit "[Errno 32] Broken pipe") else None)
    (fun _ _ => TimedOut) (fun _ _ => None) (fun _ _ => None).

(** ** Notions used to state further properties of the code *)

(** No socket call other than [recv] ever fails. *)
Definition all_calls_succeed (env : Env) : Prop :=
  forall t c,
    os_getpeername env t c = None /\ os_sendall env t c = None /\
    os_settimeout env t c = None /\ os_close env t c = None.

(** ASCII white space, as bytes on the wire. *)
Definition ascii_space (b : N) : bool :=
  between 9 13 b || between 28 31 b || N.eqb b 32.

Definition is_sendall (ev : Event) : Prop :=
  match ev with
  | Sendall _ _ _ => True
  | _ => False
  end.

(** A computation that only writes with [sendall]: it closes nothing,
    starts nothing and leaves the waiting list alone. *)
Definition sends_only {A} (m : M A) : Prop :=
  forall w, exists evs,
    wire (snd (m w)) = wire w ++ evs /\ Forall is_sendall evs /\
    closed (snd (m w)) = closed w /\
    clients_waiting (snd (m w)) = clients_waiting w.

(** The four messages that open an iteration of a session. *)
Definition opening {E : Engine} (p1 p2 : Conn) (g : game) : list Event :=
  let current := turn g in
  let other := if Nat.eqb current p1 then p2 else p1 in
  [Sendall p1 (print_board g ++ nl) true;
   Sendall p2 (print_board g ++ nl) true;
   Sendall current (lit "Your move (0-8) or QUIT:" ++ nl) true;
   Sendall other (lit "Waiting for opponent..." ++ nl) true].

(** The world after a [recv_with_timeout] on [sock] that made [n] socket
    calls. *)
Definition after_receive (n : nat) (sock : Conn) (w : World) : World :=
  mkWorld (n + clock w)
    (upd (upd (deadline w) sock (Some MOVE_TIMEOUT_SECONDS)) sock None)
    (closed w) (wire w) (clients_waiting w).

(** X already holds the top row. *)
Definition top_row_won : game :=
  mkTtt 1 2
    [Some true; Some true; Some true; Some false; Some false; None; None;
     None; None]
    2 (Some (lit "X")).

(** A game whose turn owner is neither player of the session. *)
Definition stranger_turn : game := mkTtt 1 2 (repeat None 9) 3 None.

(** The peer is gone: every read returns no bytes. *)
Definition departed : Env := calm (fun _ _ => Bytes []).

(** Neither the welcome nor the close that follows it goes through. *)
Definition send_and_close_fail : Env :=
  mkEnv sample_peer (fun _ _ => None)
    (fun _ _ => Some (lit "[Errno 32] Broken pipe"))
    (fun _ _ => TimedOut) (fun _ _ => None)
    (fun _ _ => Some (lit "[Errno 5] Input/output error")).

(** One move from a draw: the board is full but for the last cell, and
    X completes no line by taking it. *)
Definition draw_open : game :=
  mkTtt 1 2
    [Some true; Some false; Some true; Some true; Some false; Some false;
     Some false; Some true; None]
    1 None.

(** Whoever is asked answers with [data]; from instant 9 on nothing can
    be sent to p1 any more, while its peer name still resolves. *)
Definition fading (data : list N) : Env :=
  mkEnv sample_peer (fun _ _ => None)
    (fun t c => if Nat.eqb c 1 && Nat.leb 9 t
                then Some (lit "[Errno 32] Broken pipe") else None)
    (fun _ _ => Bytes data) (fun _ _ => None) (fun _ _ => None).

(** p1 sends a MOVE line with one token too many and its connection is
    reset right after: from instant 7 on its peer name cannot be resolved
    and nothing can be sent to it. *)
Definition garbled_then_reset : Env :=
  mkEnv sample_peer
    (fun t c => if Nat.eqb c 1 && Nat.leb 7 t
                then Some (lit "[Errno 107] Transport endpoint is not connected")
                else None)
    (fun t c => if Nat.eqb c 1 && Nat.leb 7 t
                then Some (lit "[Errno 32] Broken pipe") else None)
    (fun _ _ => Bytes (bytes_of "MOVE 1 2")) (fun _ _ => None)
    (fun _ _ => None).

(** Whoever is asked answers with [data]; from instant 7 on, right
    after the first reply has been read, nothing can be sent to p1 any
    more, while its peer name still resolves and p2 can be reached. *)
Definition lost_after_reply (data : list N) : Env :=
  mkEnv sample_peer (fun _ _ => None)
    (fun t c => if Nat.eqb c 1 && Nat.leb 7 t
                then Some (lit "[Errno 32] Broken pipe") else None)
    (fun _ _ => Bytes data) (fun _ _ => None) (fun _ _ => None).

(** * Properties *)

Arguments lit : simpl never.
Arguments str_int : simpl never.

(** Unfold the monad and the socket calls, then compute on the world. *)
Ltac mred :=
  cbv beta iota zeta delta
    [bind ret raise try_except try_finally swallow tick emit set_deadline
     set_closed getpeername sendall send settimeout recv close decode
     addr_or_unknown];
  cbn [clock deadline closed wire clients_waiting fst snd].

(** ** The clock only moves forward *)

Lemma grows_ret {A} (a : A) : grows (ret a).
Proof. intros w. apply Nat.le_refl. Qed.

Lemma grows_raise {A} (e : exn) : grows (@raise A e).
Proof. intros w. apply Nat.le_refl. Qed.

Lemma grows_bind {A B} (m : M A) (k : A -> M B) :
  grows m -> (forall a, grows (k a)) -> grows (bind m k).
Proof.
  intros Hm Hk w. unfold bind. specialize (Hm w).
  destruct (m w) as [[a|e] w1]; cbn [snd] in *; [|exact Hm].
  specialize (Hk a w1). lia.
Qed.

Lemma grows_try_except {A} (m : M A) (h : exn -> M A) :
  grows m -> (forall e, grows (h e)) -> grows (try_except m h).
Proof.
  intros Hm Hh w. unfold try_except. specialize (Hm w).
  destruct (m w) as [[a|e] w1]; cbn [snd] in *; [exact Hm|].
  specialize (Hh e w1). lia.
Qed.

Lemma grows_try_finally {A} (m : M A) (f : M unit) :
  grows m -> grows f -> grows (try_finally m f).
Proof.
  intros Hm Hf w. unfold try_finally. specialize (Hm w).
  destruct (m w) as [r w1]. specialize (Hf w1).
  destruct (f w1) as [[[]|e] w2]; cbn [snd] in *; lia.
Qed.

Lemma grows_tick : grows tick.
Proof. intros w. simpl. lia. Qed.

Lemma grows_emit (ev : Event) : grows (emit ev).
Proof. intros w. apply Nat.le_refl. Qed.

Lemma grows_set_deadline (c : Conn) (v : option Z) : grows (set_deadline c v).
Proof. intros w. apply Nat.le_refl. Qed.

Lemma grows_set_closed (c : Conn) : grows (set_closed c).
Proof. intros w. apply Nat.le_refl. Qed.

Lemma strict_bind {A B} (m : M A) (k : A -> M B) :
  strict m -> (forall a, grows (k a)) -> strict (bind m k).
Proof.
  intros Hm Hk w. unfold bind. specialize (Hm w).
  destruct (m w) as [[a|e] w1]; cbn [snd] in *; [|exact Hm].
  specialize (Hk a w1). lia.
Qed.

Lemma strict_try_except {A} (m : M A) (h : exn -> M A) :
  strict m -> (forall e, grows (h e)) -> strict (try_except m h).
Proof.
  intros Hm Hh w. unfold try_except. specialize (Hm w).
  destruct (m w) as [[a|e] w1]; cbn [snd] in *; [exact Hm|].
  specialize (Hh e w1). lia.
Qed.

(** Take a program apart down to the socket calls. *)
Ltac grow :=
  repeat first
    [ apply grows_ret | apply grows_raise | apply grows_tick
    | apply grows_emit | apply grows_set_deadline | apply grows_set_closed
    | apply grows_bind | apply grows_try_except | apply grows_try_finally
    | match goal with
      | |- forall _, _ => intro
      | |- grows (match ?x with _ => _ end) => destruct x
      end
    | progress cbv beta zeta
    | progress unfold swallow, getpeername, sendall, settimeout, recv, close,
        decode, addr_or_unknown, safe_send, recv_with_timeout, broadcast,
        parse_reply, verdict, announce, play, reply, notify_remaining,
        handlers ].

(** ** Text *)

Lemma upper_char_ascii {U : Unicode} (c : N) :
  (ascii_upper c < 128)%N -> upper_char c = [ascii_upper c].
Proof.
  unfold upper_char, ascii_upper, between. intros H.
  destruct (c <? 128)%N eqn:Hc.
  - destruct ((97 <=? c) && (c <=? 122))%N; reflexivity.
  - apply N.ltb_ge in Hc.
    destruct ((97 <=? c)%N && (c <=? 122)%N) eqn:Hb.
    + apply andb_true_iff in Hb. destruct Hb as [_ Hb].
      apply N.leb_le in Hb. lia.
    + lia.
Qed.

Lemma upper_ascii {U : Unicode} (m : text) :
  Forall (fun c => (ascii_upper c < 128)%N) m ->
  upper m = map ascii_upper m.
Proof.
  induction 1 as [|c m Hc _ IH]; [reflexivity|].
  unfold upper in *. simpl. rewrite IH, (upper_char_ascii _ Hc). reflexivity.
Qed.

Lemma quit_upper {U : Unicode} (m : text) :
  map ascii_upper m = lit "QUIT" -> upper m = lit "QUIT".
Proof.
  intros H. rewrite upper_ascii; [exact H|].
  apply Forall_forall. intros c Hc.
  apply (in_map ascii_upper) in Hc. rewrite H in Hc.
  cbv [lit list_ascii_of_string map N_of_ascii N_of_digits] in Hc.
  simpl in Hc. lia.
Qed.

Lemma ascii_digits_facts {U : Unicode} (m : text) :
  ascii_digits m = true ->
  upper m = m /\ isdigit m = true /\ exists c r, m = c :: r /\ between 48 57 c = true.
Proof.
  intros H. destruct m as [|c r]; [discriminate|].
  unfold ascii_digits in H.
  assert (Hall : Forall (fun x => (48 <= x <= 57)%N) (c :: r)).
  { apply Forall_forall. intros x Hx.
    apply (proj1 (forallb_forall _ _) H) in Hx.
    unfold between in Hx. apply andb_true_iff in Hx.
    rewrite !N.leb_le in Hx. exact Hx. }
  split; [|split].
  - rewrite upper_ascii.
    + transitivity (map (fun x => x) (c :: r)); [|apply map_id].
      apply map_ext_in. intros x Hx.
      apply (proj1 (Forall_forall _ _) Hall) in Hx.
      unfold ascii_upper, between.
      destruct (97 <=? x)%N eqn:Hlo; [apply N.leb_le in Hlo; lia|reflexivity].
    + apply Forall_forall. intros x Hx.
      apply (proj1 (Forall_forall _ _) Hall) in Hx.
      unfold ascii_upper, between.
      destruct (97 <=? x)%N eqn:Hlo; [apply N.leb_le in Hlo; lia|].
      simpl. lia.
  - unfold isdigit. apply forallb_forall. intros x Hx.
    apply (proj1 (Forall_forall _ _) Hall) in Hx.
    unfold isdigit_char, between.
    destruct (x <? 128)%N eqn:Hlt; [|apply N.ltb_ge in Hlt; lia].
    apply andb_true_iff. rewrite !N.leb_le. exact Hx.
  - exists c, r. split; [reflexivity|].
    simpl in H. apply andb_true_iff in H. apply H.
Qed.

(** ** Transport primitives: what a call amounts to *)

Section TransportFacts.
Variable env : Env.
Context {U : Unicode}.

Lemma addr_or_unknown_eq (c : Conn) (w : World) :
  addr_or_unknown env c w = (Ret (resolved env (clock w) c), advance 1 [] w).
Proof.
  unfold resolved, advance. mred. rewrite app_nil_r.
  destruct (os_getpeername env (clock w) c); reflexivity.
Qed.

Lemma safe_send_eq (c : Conn) (s : text) (w : World) :
  safe_send env c s w =
  match os_sendall env (clock w) c with
  | None => (Ret tt, advance 1 [Sendall c s true] w)
  | Some d =>
      (Exc (PlayerDisconnectedError (resolved env (S (clock w)) c)
              (lit "send failed: " ++ d)),
       advance 2 [Sendall c s false] w)
  end.
Proof.
  unfold safe_send, resolved, advance. mred.
  destruct (os_sendall env (clock w) c); mred; [|reflexivity].
  destruct (os_getpeername env (S (clock w)) c); reflexivity.
Qed.

Lemma close_eq (c : Conn) (w : World) :
  swallow (close env c) w =
  (Ret tt,
   mkWorld (S (clock w)) (deadline w) (upd (closed w) c true)
     (wire w ++ [Close c (match os_close env (clock w) c with
                          | None => true | Some _ => false end)])
     (clients_waiting w)).
Proof.
  mred. destruct (os_close env (clock w) c); reflexivity.
Qed.

(** C4 -- [recv_with_timeout(sock, timeout_seconds)] with a bound that
    is not negative: an empty read signals PlayerDisconnectedError,
    socket.timeout signals TimeoutWaitingPlayerError whose message carries
    the bound, any other failure (of the read, of setting the deadline, of
    decoding) signals PlayerDisconnectedError, and bytes that arrive are
    returned decoded and stripped.  The failure carries the peer name, or
    the fallback when that cannot be resolved. *)
Theorem recv_with_timeout_contract (sock : Conn) (timeout_seconds : Z) (w : World) :
  (0 <= timeout_seconds)%Z ->
  fst (recv_with_timeout env sock timeout_seconds w) =
  match os_settimeout env (clock w) sock with
  | Some d =>
      Exc (PlayerDisconnectedError (resolved env (1 + clock w) sock)
             (lit "recv failed: " ++ d))
  | None =>
      let who := resolved env (2 + clock w) sock in
      match os_recv env (1 + clock w) sock with
      | Bytes [] =>
          Exc (PlayerDisconnectedError who (lit "client closed connection"))
      | Bytes data =>
          match utf8_decode data with
          | Some s => Ret (strip s)
          | None =>
              Exc (PlayerDisconnectedError who
                     (lit "recv failed: " ++ utf8_error data))
          end
      | TimedOut =>
          Exc (TimeoutWaitingPlayerError who
                 (lit "Timed out after " ++ str_int timeout_seconds
                  ++ lit " seconds"))
      | RecvError d =>
          Exc (PlayerDisconnectedError who (lit "recv failed: " ++ d))
      end
  end.
Proof.
  intros Hpos. unfold resolved. apply Z.ltb_ge in Hpos.
  unfold recv_with_timeout. mred. rewrite Hpos. mred.
  change (1 + clock w) with (S (clock w)).
  change (2 + clock w) with (S (S (clock w))).
  destruct (os_settimeout env (clock w) sock) as [d0|]; mred.
  { destruct (os_getpeername env (S (clock w)) sock); mred;
      destruct (os_settimeout env _ sock); reflexivity. }
  destruct (os_recv env (S (clock w)) sock) as [data | | d]; mred.
  - destruct data as [|b data']; mred.
    + destruct (os_getpeername env (S (S (clock w))) sock); mred;
        destruct (os_settimeout env _ sock); reflexivity.
    + destruct (utf8_decode (b :: data')); mred.
      * destruct (os_settimeout env _ sock); reflexivity.
      * destruct (os_getpeername env (S (S (clock w))) sock); mred;
          destruct (os_settimeout env _ sock); reflexivity.
  - destruct (os_getpeername env (S (S (clock w))) sock); mred;
      destruct (os_settimeout env _ sock); reflexivity.
  - destruct (os_getpeername env (S (S (clock w))) sock); mred;
      destruct (os_settimeout env _ sock); reflexivity.
Qed.

(** C5 -- whatever way [recv_with_timeout] is left (a text returned, a
    timeout, a closed or failing connection, a refused timeout value), the
    socket's timeout is [None] afterwards, and no other socket's timeout
    has changed. *)
Theorem recv_with_timeout_clears_deadline
  (sock : Conn) (timeout_seconds : Z) (w : World) (c : Conn) :
  deadline (snd (recv_with_timeout env sock timeout_seconds w)) c =
  if Nat.eqb c sock then None else deadline w c.
Proof.
  unfold recv_with_timeout. mred.
  destruct (timeout_seconds <? 0)%Z; mred.
  - destruct (os_getpeername env _ sock); mred;
      destruct (os_settimeout env _ sock); mred; unfold upd;
      destruct (Nat.eqb c sock); reflexivity.
  - destruct (os_settimeout env (clock w) sock); mred.
    + destruct (os_getpeername env _ sock); mred;
        destruct (os_settimeout env _ sock); mred; unfold upd;
        destruct (Nat.eqb c sock); reflexivity.
    + destruct (os_recv env _ sock) as [data | | d]; mred.
      * destruct data as [|b data']; mred.
        -- destruct (os_getpeername env _ sock); mred;
             destruct (os_settimeout env _ sock); mred; unfold upd;
             destruct (Nat.eqb c sock); reflexivity.
        -- destruct (utf8_decode (b :: data')); mred.
           ++ destruct (os_settimeout env _ sock); mred; unfold upd;
                destruct (Nat.eqb c sock); reflexivity.
           ++ destruct (os_getpeername env _ sock); mred;
                destruct (os_settimeout env _ sock); mred; unfold upd;
                destruct (Nat.eqb c sock); reflexivity.
      * destruct (os_getpeername env _ sock); mred;
          destruct (os_settimeout env _ sock); mred; unfold upd;
          destruct (Nat.eqb c sock); reflexivity.
      * destruct (os_getpeername env _ sock); mred;
          destruct (os_settimeout env _ sock); mred; unfold upd;
          destruct (Nat.eqb c sock); reflexivity.
Qed.

End TransportFacts.

(** ** The session *)

Lemma advance_advance (n m : nat) (e e' : list Event) (w : World) :
  advance n e (advance m e' w) = advance (n + m) (e' ++ e) w.
Proof.
  unfold advance. cbn [clock deadline closed wire clients_waiting].
  rewrite Nat.add_assoc, app_assoc. reflexivity.
Qed.

Lemma advance_0 (w : World) : advance 0 [] w = w.
Proof. destruct w. unfold advance. simpl. rewrite app_nil_r. reflexivity. Qed.

Section SessionFacts.
Context {U : Unicode} {E : Engine}.
Variable env : Env.
Variables p1 p2 : Conn.

Lemma getpeername_eq (c : Conn) (w : World) :
  getpeername env c w =
  (match os_getpeername env (clock w) c with
   | None => Ret (peername env c)
   | Some d => Exc (OtherError d)
   end, advance 1 [] w).
Proof.
  unfold advance. mred. rewrite app_nil_r.
  destruct (os_getpeername env (clock w) c); reflexivity.
Qed.

Lemma swallow_safe_send_eq (c : Conn) (s : text) (w : World) :
  swallow (safe_send env c s) w =
  (Ret tt,
   match os_sendall env (clock w) c with
   | None => advance 1 [Sendall c s true] w
   | Some _ => advance 2 [Sendall c s false] w
   end).
Proof.
  unfold swallow, try_except. rewrite safe_send_eq.
  destruct (os_sendall env (clock w) c); reflexivity.
Qed.

Lemma notify_remaining_eq (a : Addr) (notice : text) (w : World) :
  notify_remaining env p1 p2 a notice w =
  (Ret tt,
   match os_getpeername env (clock w) p1 with
   | Some _ => advance 1 [] w
   | None =>
       let remaining := if addr_eq_dec a (peername env p1) then p2 else p1 in
       match os_sendall env (S (clock w)) remaining with
       | None => advance 2 [Sendall remaining notice true] w
       | Some _ => advance 3 [Sendall remaining notice false] w
       end
   end).
Proof.
  unfold notify_remaining, swallow, try_except, bind.
  rewrite getpeername_eq.
  destruct (os_getpeername env (clock w) p1); [reflexivity|].
  cbv zeta. rewrite safe_send_eq. cbn [clock advance Nat.add].
  destruct (os_sendall env (S (clock w)) _); cbv [ret];
    rewrite advance_advance; reflexivity.
Qed.

Lemma close_both_eq (w : World) :
  exists k1 k2,
    close_both env p1 p2 w =
    (Ret tt,
     mkWorld (2 + clock w) (deadline w)
       (upd (upd (closed w) p1 true) p2 true)
       (wire w ++ [Close p1 k1; Close p2 k2]) (clients_waiting w)).
Proof.
  unfold close_both, bind. rewrite close_eq. rewrite close_eq.
  cbn [clock deadline closed wire clients_waiting].
  do 2 eexists. rewrite <- app_assoc. reflexivity.
Qed.

Lemma upd_same {A : Type} (f : Conn -> A) (c : Conn) (v : A) : upd f c v c = v.
Proof. unfold upd. rewrite Nat.eqb_refl. reflexivity. Qed.

Lemma closed_after_both (f : Conn -> bool) :
  upd (upd f p1 true) p2 true p1 = true /\
  upd (upd f p1 true) p2 true p2 = true.
Proof.
  unfold upd. rewrite !Nat.eqb_refl.
  destruct (Nat.eqb p1 p2); split; reflexivity.
Qed.

(** Every handler of the outer [try] completes: what it sends is sent
    inside a [try ... except: pass]. *)
Lemma handlers_total (g : game) (current : Conn) (e : exn) (w : World) :
  exists c w', handlers env p1 p2 g current e w = (Ret (c, g), w').
Proof.
  destruct e; unfold handlers, bind;
    repeat first [rewrite notify_remaining_eq | rewrite swallow_safe_send_eq];
    cbv [ret]; eauto.
Qed.

Lemma iteration_total (g : game) (w : World) :
  exists c g' w', iteration env p1 p2 g w = (Ret (c, g'), w').
Proof.
  unfold iteration, try_except.
  destruct (body env p1 p2 g w) as [[[c g'] | e] w1]; [eauto|].
  destruct (handlers_total g (turn g) e w1) as (c & w' & H).
  rewrite H. eauto.
Qed.



(** The greeting either goes out to both players or ends with both
    sockets closed. *)
Lemma greet_cases (g : game) (w : World) :
  (exists w1, greet env p1 p2 g w = (Ret true, w1)) \/
  (exists w0 k1 k2,
     greet env p1 p2 g w =
     (Ret false,
      mkWorld (2 + clock w0) (deadline w0)
        (upd (upd (closed w0) p1 true) p2 true)
        (wire w0 ++ [Close p1 k1; Close p2 k2]) (clients_waiting w0))).
Proof.
  unfold greet, try_except, bind. rewrite safe_send_eq.
  destruct (os_sendall env (clock w) p1).
  - right.
    match goal with |- context [close_both env p1 p2 ?x] =>
      destruct (close_both_eq x) as (k1 & k2 & Hc) end.
    rewrite Hc. cbv [ret]. eauto.
  - rewrite safe_send_eq.
    destruct (os_sendall env (clock (advance 1 _ w)) p2).
    + right.
      match goal with |- context [close_both env p1 p2 ?x] =>
        destruct (close_both_eq x) as (k1 & k2 & Hc) end.
      rewrite Hc. cbv [ret]. eauto.
    + left. cbv [ret]. eauto.
Qed.


(** X24 -- when the body of an iteration signals
    TimeoutWaitingPlayerError, PlayerQuitError or PlayerDisconnectedError,
    the session ends in that iteration with both sockets closed, whatever
    the sockets do.  When p1's peer name resolves in the handler, the one
    thing attempted before the sockets are closed is the matching notice,
    to p2 if the failure names p1's address and to p1 otherwise, and it
    is delivered exactly when that send succeeds. *)
Theorem terminal_failure_ends_session
  (fuel : nat) (g : game) (w w1 : World) (e : exn) (a : Addr) (notice : text) :
  body env p1 p2 g w = (Exc e, w1) ->
  terminal_notice e = Some (a, notice) ->
  exists w3,
    run env p1 p2 (S fuel) g w = (Ret (Some tt), w3) /\
    closed w3 p1 = true /\ closed w3 p2 = true /\
    (os_getpeername env (clock w1) p1 = None ->
     let remaining := if addr_eq_dec a (peername env p1) then p2 else p1 in
     exists ok k1 k2,
       wire w3 =
         wire w1 ++ [Sendall remaining notice ok; Close p1 k1; Close p2 k2] /\
       (ok = true <-> os_sendall env (S (clock w1)) remaining = None)).
Proof.
  intros Hbody Hterm.
  assert (Hh : handlers env p1 p2 g (turn g) e w1 =
               bind (notify_remaining env p1 p2 a notice)
                    (fun _ => ret (Break, g)) w1).
  { destruct e; simpl in Hterm; try discriminate;
      injection Hterm as <- <-; reflexivity. }
  unfold run, bind. cbn [game_loop]. unfold bind, iteration, try_except.
  rewrite Hbody, Hh. unfold bind. rewrite notify_remaining_eq. cbv [ret].
  match goal with |- context [close_both env p1 p2 ?x] =>
    destruct (close_both_eq x) as (k1 & k2 & Hc) end.
  rewrite Hc. eexists. split; [reflexivity|]. cbn [closed].
  match goal with |- context [upd (upd ?f p1 true) p2 true] =>
    destruct (closed_after_both f) as [H1 H2] end.
  split; [exact H1|]. split; [exact H2|]. clear Hc H1 H2.
  intros Hname. rewrite Hname.
  set (remaining := if addr_eq_dec a (peername env p1) then p2 else p1).
  destruct (os_sendall env (S (clock w1)) remaining) eqn:Hs.
  - exists false, k1, k2. unfold advance. cbn [wire].
    rewrite <- !app_assoc. split; [reflexivity|]. split; discriminate.
  - exists true, k1, k2. unfold advance. cbn [wire].
    rewrite <- !app_assoc. split; [reflexivity|]. split; reflexivity.
Qed.

Lemma iteration_after_ask (g : game) (w w1 : World) (m : text) :
  ask env p1 p2 g w = (Ret m, w1) ->
  iteration env p1 p2 g w =
  try_except (reply env p1 p2 g (turn g) m) (handlers env p1 p2 g (turn g)) w1.
Proof.
  intros H. unfold iteration, try_except, body, bind. rewrite H. reflexivity.
Qed.

(** X25 -- when the text received from the player to move is QUIT in
    some letter case, the session always ends in that iteration with
    both sockets closed.  When moreover the peer names of the quitting
    player and of p1 resolve (and differ unless the player is p1),
    PlayerQuitError is raised for the current player and the one thing
    attempted before the sockets are closed is OPPONENT_QUIT - you win,
    to the other player, delivered exactly when that send succeeds. *)
Theorem quit_ends_session (fuel : nat) (g : game) (w w1 : World) (m : text) :
  ask env p1 p2 g w = (Ret m, w1) ->
  map ascii_upper m = lit "QUIT" ->
  exists w3,
    run env p1 p2 (S fuel) g w = (Ret (Some tt), w3) /\
    closed w3 p1 = true /\ closed w3 p2 = true /\
    (os_getpeername env (clock w1) (turn g) = None ->
     os_getpeername env (S (clock w1)) p1 = None ->
     (turn g <> p1 -> peername env (turn g) <> peername env p1) ->
     fst (reply env p1 p2 g (turn g) m w1) =
       Exc (PlayerQuitError (peername env (turn g)) (lit "Player quit")) /\
     let other := if Nat.eqb (turn g) p1 then p2 else p1 in
     exists ok k1 k2,
       wire w3 =
         wire w1 ++ [Sendall other (lit "OPPONENT_QUIT - you win" ++ nl) ok;
                     Close p1 k1; Close p2 k2] /\
       (ok = true <-> os_sendall env (2 + clock w1) other = None)).
Proof.
  intros Hask Hq. apply quit_upper in Hq.
  assert (Hreply : reply env p1 p2 g (turn g) m w1 =
    (match os_getpeername env (clock w1) (turn g) with
     | None => Exc (PlayerQuitError (peername env (turn g)) (lit "Player quit"))
     | Some d => Exc (OtherError d)
     end, advance 1 [] w1)).
  { unfold reply, bind, parse_reply.
    destruct (text_eq_dec (upper m) (lit "QUIT")); [|contradiction].
    unfold bind. rewrite getpeername_eq.
    destruct (os_getpeername env (clock w1) (turn g)); reflexivity. }
  unfold run, bind. cbn [game_loop]. unfold bind.
  erewrite iteration_after_ask by exact Hask. unfold try_except. rewrite Hreply.
  destruct (os_getpeername env (clock w1) (turn g)) as [d|] eqn:Hn.
  - (* the peer name of the quitting player cannot be resolved *)
    unfold handlers, bind. rewrite !swallow_safe_send_eq. cbv [ret].
    match goal with |- context [close_both env p1 p2 ?x] =>
      destruct (close_both_eq x) as (k1 & k2 & Hc) end.
    rewrite Hc. eexists. split; [reflexivity|]. cbn [closed].
    match goal with |- context [upd (upd ?f p1 true) p2 true] =>
      destruct (closed_after_both f) as [H1 H2] end.
    split; [exact H1|]. split; [exact H2|]. intros Hcontra. discriminate.
  - unfold handlers, bind. rewrite notify_remaining_eq.
    cbn [clock advance Nat.add]. cbv [ret].
    match goal with |- context [close_both env p1 p2 ?x] =>
      destruct (close_both_eq x) as (k1 & k2 & Hc) end.
    rewrite Hc. eexists. split; [reflexivity|]. cbn [closed].
    match goal with |- context [upd (upd ?f p1 true) p2 true] =>
      destruct (closed_after_both f) as [H1 H2] end.
    split; [exact H1|]. split; [exact H2|]. clear Hc H1 H2.
    intros _ Hn1 Hdiff. split; [reflexivity|].
    rewrite Hn1. cbv zeta.
    assert (Hrem : (if addr_eq_dec (peername env (turn g)) (peername env p1)
                    then p2 else p1) =
                   (if Nat.eqb (turn g) p1 then p2 else p1)).
    { destruct (Nat.eqb_spec (turn g) p1) as [Heq|Hne].
      - rewrite Heq.
        destruct (addr_eq_dec (peername env p1) (peername env p1));
          congruence.
      - destruct (addr_eq_dec (peername env (turn g)) (peername env p1))
          as [Ha|]; [|reflexivity].
        exfalso. exact (Hdiff Hne Ha). }
    rewrite Hrem. cbn [Nat.add].
    destruct (os_sendall env (S (S (clock w1))) _) eqn:Hs.
    + exists false, k1, k2. unfold advance. cbn [wire].
      rewrite <- !app_assoc. split; [reflexivity|]. split; discriminate.
    + exists true, k1, k2. unfold advance. cbn [wire].
      rewrite <- !app_assoc. split; [reflexivity|]. split; reflexivity.
Qed.

(** A bare token of ASCII digits passes lines 121-134 untouched. *)
Lemma parse_reply_digits (current : Conn) (m : text) (w : World) :
  ascii_digits m = true ->
  parse_reply env current m w = (Ret (MoveArg m), w).
Proof.
  intros H. destruct (ascii_digits_facts m H) as (Hup & Hdig & c & r & -> & Hc).
  unfold parse_reply. rewrite Hup, Hdig.
  destruct (text_eq_dec (c :: r) (lit "QUIT")) as [Heq|_].
  - change (lit "QUIT") with (81%N :: lit "UIT") in Heq.
    injection Heq as -> _. discriminate.
  - assert (Hm : startswith (c :: r) (lit "MOVE ") = false).
    { change (lit "MOVE ") with (77%N :: lit "OVE "). cbn [startswith].
      destruct (N.eqb_spec 77 c) as [<-|_]; [discriminate|reflexivity]. }
    rewrite Hm. reflexivity.
Qed.

(** C9 -- a received text that is a bare run of ASCII digits, whatever
    its length and value, becomes [move_arg] as it stands: nothing is sent
    and nothing is checked before [game.make_move(current, move_arg)], and
    when the engine refuses the move the session relays the engine's own
    error and loops. *)
Theorem digits_forwarded_to_engine
  (g : game) (current : Conn) (m : text) (w : World) :
  ascii_digits m = true ->
  parse_reply env current m w = (Ret (MoveArg m), w) /\
  reply env p1 p2 g current m w = play env p1 p2 g current m w /\
  forall name detail g',
    make_move g current m = IllegalMove name detail g' ->
    os_sendall env (clock w) current = None ->
    reply env p1 p2 g current m w =
    (Ret (Continue, g'),
     advance 1 [Sendall current
                  (lit "ERROR: " ++ name ++ lit ": " ++ detail ++ nl) true] w).
Proof.
  intros H.
  assert (Hr : reply env p1 p2 g current m w = play env p1 p2 g current m w).
  { unfold reply, bind. rewrite parse_reply_digits by exact H. reflexivity. }
  split; [apply parse_reply_digits; exact H|]. split; [exact Hr|].
  intros name detail g' Hmove Hsend. rewrite Hr. unfold play.
  rewrite Hmove. unfold bind. rewrite safe_send_eq, Hsend. reflexivity.
Qed.

(** X26 -- for a text [m] received from the player to move, other than
    QUIT: when the player's peer name resolves, a text of the MOVE form
    that is not two tokens with an all-digit second one raises
    InvalidMessageError, INVALID_MESSAGE with the error's text is
    attempted to the player (delivered exactly when that send succeeds)
    and the loop goes on with the game untouched; a well-formed MOVE
    yields its second token; a bare all-digit token is the move argument
    as it stands; for anything else, when the send to the player
    succeeds, the player gets the Invalid move format notice and the
    loop goes on with the game untouched. *)
Theorem reply_to_malformed_input (g : game) (w w1 : World) (m : text) :
  ask env p1 p2 g w = (Ret m, w1) ->
  upper m <> lit "QUIT" ->
  let current := turn g in
  (startswith (upper m) (lit "MOVE ") = true ->
   malformed (split m) = true ->
   os_getpeername env (clock w1) current = None ->
   let e := InvalidMessageError (peername env current)
              (lit "Malformed MOVE: " ++ m) in
   fst (reply env p1 p2 g current m w1) = Exc e /\
   exists ok w2,
     iteration env p1 p2 g w = (Ret (Continue, g), w2) /\
     wire w2 =
       wire w1 ++ [Sendall current
                     (lit "INVALID_MESSAGE: " ++ str_exn e ++ nl) ok] /\
     (ok = true <-> os_sendall env (S (clock w1)) current = None)) /\
  (startswith (upper m) (lit "MOVE ") = true ->
   malformed (split m) = false ->
   parse_reply env current m w1 = (Ret (MoveArg (nth 1 (split m) [])), w1) /\
   List.length (split m) = 2 /\ isdigit (nth 1 (split m) []) = true) /\
  (startswith (upper m) (lit "MOVE ") = false ->
   isdigit m = true ->
   parse_reply env current m w1 = (Ret (MoveArg m), w1)) /\
  (startswith (upper m) (lit "MOVE ") = false ->
   isdigit m = false ->
   os_sendall env (clock w1) current = None ->
   exists w2,
     iteration env p1 p2 g w = (Ret (Continue, g), w2) /\
     wire w2 =
       wire w1 ++ [Sendall current
                     (lit "Invalid move format: " ++ m ++ nl) true]).
Proof.
  intros Hask Hnq current.
  assert (Hparse : forall X (a b : X),
    (if text_eq_dec (upper m) (lit "QUIT") then a else b) = b).
  { intros X a b. destruct (text_eq_dec (upper m) (lit "QUIT"));
      [contradiction|reflexivity]. }
  split; [|split; [|split]].
  - intros Hm Hbad Hname e. split.
    + unfold reply, bind, parse_reply. rewrite Hparse, Hm, Hbad. unfold bind.
      rewrite getpeername_eq. fold current. rewrite Hname. reflexivity.
    + erewrite iteration_after_ask by exact Hask.
      unfold try_except, reply, bind, parse_reply. rewrite Hparse, Hm, Hbad.
      unfold bind. rewrite getpeername_eq. fold current. rewrite Hname.
      cbv [raise]. unfold handlers, bind. rewrite swallow_safe_send_eq.
      cbn [clock advance Nat.add]. cbv [ret]. fold e.
      destruct (os_sendall env (S (clock w1)) current) eqn:Hs.
      * exists false. eexists. split; [reflexivity|]. unfold advance.
        cbn [wire]. rewrite <- app_assoc. split; [reflexivity|].
        split; discriminate.
      * exists true. eexists. split; [reflexivity|]. unfold advance.
        cbn [wire]. rewrite <- app_assoc. split; [reflexivity|].
        split; reflexivity.
  - intros Hm Hok. split.
    + unfold parse_reply. rewrite Hparse, Hm, Hok. reflexivity.
    + unfold malformed in Hok. apply orb_false_iff in Hok.
      destruct Hok as [Hlen Hdig].
      apply negb_false_iff in Hlen, Hdig. apply Nat.eqb_eq in Hlen. auto.
  - intros Hm Hdig. unfold parse_reply. rewrite Hparse, Hm, Hdig. reflexivity.
  - intros Hm Hdig Hsend. erewrite iteration_after_ask by exact Hask.
    unfold try_except, reply, bind, parse_reply. rewrite Hparse, Hm, Hdig.
    unfold bind. rewrite safe_send_eq. fold current. rewrite Hsend.
    cbv [ret]. eexists. split; reflexivity.
Qed.

(** What follows a reply that ends the loop: the sockets are closed. *)
Lemma run_after_reply_break
  (fuel : nat) (g g' : game) (w w1 w2 : World) (m : text) :
  ask env p1 p2 g w = (Ret m, w1) ->
  reply env p1 p2 g (turn g) m w1 = (Ret (Break, g'), w2) ->
  exists k1 k2 w3,
    run env p1 p2 (S fuel) g w = (Ret (Some tt), w3) /\
    closed w3 p1 = true /\ closed w3 p2 = true /\
    wire w3 = wire w2 ++ [Close p1 k1; Close p2 k2].
Proof.
  intros Hask Hreply. unfold run, bind. cbn [game_loop]. unfold bind.
  erewrite iteration_after_ask by exact Hask.
  unfold try_except. rewrite Hreply. cbv beta iota zeta delta [ret].
  destruct (close_both_eq w2) as (k1 & k2 & Hc). rewrite Hc.
  exists k1, k2. eexists. split; [reflexivity|]. cbn [closed wire].
  destruct (closed_after_both (closed w2)) as [H1 H2]. auto.
Qed.

(** What follows a reply during which a send failed: the handler of
    PlayerDisconnectedError, then the sockets are closed. *)
Lemma run_after_reply_lost
  (fuel : nat) (g : game) (w w1 w2 : World) (m d : text) (a : Addr) :
  ask env p1 p2 g w = (Ret m, w1) ->
  reply env p1 p2 g (turn g) m w1 = (Exc (PlayerDisconnectedError a d), w2) ->
  exists evs k1 k2 w3,
    run env p1 p2 (S fuel) g w = (Ret (Some tt), w3) /\
    closed w3 p1 = true /\ closed w3 p2 = true /\
    wire w3 = wire w2 ++ evs ++ [Close p1 k1; Close p2 k2].
Proof.
  intros Hask Hreply. unfold run, bind. cbn [game_loop]. unfold bind.
  erewrite iteration_after_ask by exact Hask.
  unfold try_except. rewrite Hreply. cbn [handlers]. unfold bind.
  rewrite notify_remaining_eq. cbv beta iota zeta delta [ret].
  match goal with |- context [close_both env p1 p2 ?x] =>
    destruct (close_both_eq x) as (k1 & k2 & Hc);
    destruct (closed_after_both (closed x)) as [H1 H2] end.
  rewrite Hc. clear Hc.
  destruct (os_getpeername env (clock w2) p1).
  - exists [], k1, k2. eexists. split; [reflexivity|]. cbn [closed wire].
    split; [exact H1|]. split; [exact H2|].
    unfold advance. cbn [wire]. rewrite <- app_assoc. reflexivity.
  - match goal with |- context [os_sendall env ?t ?c] =>
      destruct (os_sendall env t c) end;
      eexists; exists k1, k2; eexists; (split; [reflexivity|]);
      cbn [closed wire]; (split; [exact H1|]); (split; [exact H2|]);
      unfold advance; cbn [wire]; rewrite <- app_assoc; reflexivity.
Qed.

(** C6, as the code has it -- when the engine accepts the move taken
    from the reply and the game then has a winner, the session ends in
    that iteration with both sockets closed, whatever the sends do.  Once
    the new board has gone out to both players: for a winner other than
    Draw, You win! is attempted once for p1 or You lose!, by its symbol,
    and the same for p2, each under its own guard, so each is delivered
    exactly when its own send succeeds, then the sockets are closed; for
    Draw, the notice goes to p1 and, once delivered, to p2, and when p2
    has it too nothing follows but the closing of the sockets. *)
Theorem winner_announced
  (fuel : nat) (g g' : game) (w w1 : World) (m move_arg : text)
  (c : N) (r : text) :
  ask env p1 p2 g w = (Ret m, w1) ->
  parse_reply env (turn g) m w1 = (Ret (MoveArg move_arg), w1) ->
  make_move g (turn g) move_arg = Moved g' ->
  winner g' = Some (c :: r) ->
  let board := print_board g' ++ nl in
  let draw := lit "Game over! It's a draw." ++ nl in
  let told s :=
    if text_eq_dec (symbols g' s) (c :: r) then lit "You win!" ++ nl
    else lit "You lose!" ++ nl in
  exists w3,
    run env p1 p2 (S fuel) g w = (Ret (Some tt), w3) /\
    closed w3 p1 = true /\ closed w3 p2 = true /\
    (os_sendall env (clock w1) p1 = None ->
     os_sendall env (1 + clock w1) p2 = None ->
     (c :: r <> lit "Draw" ->
      exists ok1 ok2 k1 k2,
        wire w3 =
          wire w1 ++ [Sendall p1 board true; Sendall p2 board true;
                      Sendall p1 (told p1) ok1; Sendall p2 (told p2) ok2;
                      Close p1 k1; Close p2 k2] /\
        (ok1 = true <-> os_sendall env (2 + clock w1) p1 = None) /\
        (ok2 = true <->
         os_sendall env ((if ok1 then 3 else 4) + clock w1) p2 = None)) /\
     (c :: r = lit "Draw" ->
      os_sendall env (2 + clock w1) p1 = None ->
      exists ok2 rest,
        wire w3 =
          wire w1 ++ [Sendall p1 board true; Sendall p2 board true;
                      Sendall p1 draw true; Sendall p2 draw ok2] ++ rest /\
        (ok2 = true <-> os_sendall env (3 + clock w1) p2 = None) /\
        (ok2 = true -> exists k1 k2, rest = [Close p1 k1; Close p2 k2]))).
Proof.
  intros Hask Hparse Hmove Hwin board draw told.
  assert (Hreply : reply env p1 p2 g (turn g) m w1 =
                   play env p1 p2 g (turn g) move_arg w1).
  { unfold reply, bind. rewrite Hparse. reflexivity. }
  assert (Hverdict : forall s x,
            verdict env g' (c :: r) s x =
            (Ret tt,
             match os_sendall env (clock x) s with
             | None => advance 1 [Sendall s (told s) true] x
             | Some _ => advance 2 [Sendall s (told s) false] x
             end)).
  { intros s x. unfold verdict. subst told. cbv beta.
    destruct (text_eq_dec (symbols g' s) (c :: r));
      apply swallow_safe_send_eq. }
  unfold play in Hreply. rewrite Hmove in Hreply.
  unfold bind, broadcast, bind in Hreply.
  rewrite safe_send_eq in Hreply.
  change (1 + clock w1) with (S (clock w1)).
  change (2 + clock w1) with (S (S (clock w1))).
  change (3 + clock w1) with (S (S (S (clock w1)))).
  destruct (os_sendall env (clock w1) p1) as [d1|] eqn:Hb1.
  { destruct (@run_after_reply_lost fuel _ _ _ _ _ _ _ Hask Hreply)
      as (evs & k1 & k2 & w3 & Hrun & Hc1 & Hc2 & _).
    exists w3. split; [exact Hrun|]. split; [exact Hc1|]. split; [exact Hc2|].
    intros H. discriminate H. }
  rewrite safe_send_eq in Hreply. cbn [clock advance Nat.add] in Hreply.
  destruct (os_sendall env (S (clock w1)) p2) as [d2|] eqn:Hb2.
  { destruct (@run_after_reply_lost fuel _ _ _ _ _ _ _ Hask Hreply)
      as (evs & k1 & k2 & w3 & Hrun & Hc1 & Hc2 & _).
    exists w3. split; [exact Hrun|]. split; [exact Hc1|]. split; [exact Hc2|].
    intros _ H. discriminate H. }
  unfold announce in Hreply. rewrite Hwin in Hreply.
  cbv beta iota zeta in Hreply.
  destruct (text_eq_dec (c :: r) (lit "Draw")) as [Hd|Hnd].
  - unfold bind, broadcast, bind in Hreply.
    rewrite safe_send_eq in Hreply. cbn [clock advance Nat.add] in Hreply.
    destruct (os_sendall env (S (S (clock w1))) p1) as [n1|] eqn:Hn1.
    { destruct (@run_after_reply_lost fuel _ _ _ _ _ _ _ Hask Hreply)
        as (evs & k1 & k2 & w3 & Hrun & Hc1 & Hc2 & _).
      exists w3. split; [exact Hrun|]. split; [exact Hc1|].
      split; [exact Hc2|]. intros _ _.
      split; [intros Hnd; contradiction|]. intros _ H. discriminate H. }
    rewrite safe_send_eq in Hreply. cbn [clock advance Nat.add] in Hreply.
    destruct (os_sendall env (S (S (S (clock w1)))) p2) as [n2|] eqn:Hn2.
    + destruct (@run_after_reply_lost fuel _ _ _ _ _ _ _ Hask Hreply)
        as (evs & k1 & k2 & w3 & Hrun & Hc1 & Hc2 & Hwire).
      exists w3. split; [exact Hrun|]. split; [exact Hc1|].
      split; [exact Hc2|]. intros _ _.
      split; [intros Hnd; contradiction|]. intros _ _.
      exists false, (evs ++ [Close p1 k1; Close p2 k2]).
      split; [|split; [split; discriminate|discriminate]].
      rewrite Hwire. unfold advance. cbn [wire]. rewrite <- !app_assoc.
      reflexivity.
    + cbv beta iota zeta delta [ret] in Hreply.
      destruct (@run_after_reply_break fuel _ _ _ _ _ _ Hask Hreply)
        as (k1 & k2 & w3 & Hrun & Hc1 & Hc2 & Hwire).
      exists w3. split; [exact Hrun|]. split; [exact Hc1|].
      split; [exact Hc2|]. intros _ _.
      split; [intros Hnd; contradiction|]. intros _ _.
      exists true, [Close p1 k1; Close p2 k2].
      split; [|split; [split; reflexivity|eauto]].
      rewrite Hwire. unfold advance. cbn [wire]. rewrite <- !app_assoc.
      reflexivity.
  - unfold bind in Hreply. rewrite Hverdict in Hreply.
    cbv beta iota zeta in Hreply. rewrite Hverdict in Hreply.
    cbn [clock advance Nat.add] in Hreply.
    destruct (os_sendall env (S (S (clock w1))) p1) as [v1|] eqn:Hv1;
      cbn [clock advance Nat.add] in Hreply;
      match type of Hreply with context [os_sendall env ?t p2] =>
        destruct (os_sendall env t p2) as [v2|] eqn:Hv2 end;
      cbv beta iota zeta delta [ret] in Hreply;
      destruct (@run_after_reply_break fuel _ _ _ _ _ _ Hask Hreply)
        as (k1 & k2 & w3 & Hrun & Hc1 & Hc2 & Hwire);
      exists w3; (split; [exact Hrun|]); (split; [exact Hc1|]);
      (split; [exact Hc2|]); intros _ _;
      (split; [|intros Hd; contradiction]); intros _.
    + exists false, false, k1, k2.
      split; [|split; split; (discriminate || (cbn [Nat.add]; congruence))].
      rewrite Hwire. unfold advance. cbn [wire]. rewrite <- !app_assoc.
      reflexivity.
    + exists false, true, k1, k2.
      split; [|split; split; (discriminate || reflexivity || (cbn [Nat.add]; congruence))].
      rewrite Hwire. unfold advance. cbn [wire]. rewrite <- !app_assoc.
      reflexivity.
    + exists true, false, k1, k2.
      split; [|split; split; (discriminate || reflexivity || (cbn [Nat.add]; congruence))].
      rewrite Hwire. unfold advance. cbn [wire]. rewrite <- !app_assoc.
      reflexivity.
    + exists true, true, k1, k2.
      split; [|split; split; (discriminate || reflexivity || (cbn [Nat.add]; congruence))].
      rewrite Hwire. unfold advance. cbn [wire]. rewrite <- !app_assoc.
      reflexivity.
Qed.

(** *** Sessions end once the players fall silent *)

Lemma strict_safe_send (c : Conn) (s : text) : strict (safe_send env c s).
Proof.
  intros w. rewrite safe_send_eq.
  destruct (os_sendall env (clock w) c); cbn [snd clock advance]; lia.
Qed.

Lemma strict_iteration (g : game) : strict (iteration env p1 p2 g).
Proof.
  unfold iteration, body, ask, broadcast.
  apply strict_try_except; [|grow].
  repeat (apply strict_bind; [|grow]).
  apply strict_safe_send.
Qed.

Lemma recv_with_timeout_silent (sock : Conn) (w : World) :
  os_recv env (S (clock w)) sock = TimedOut ->
  exists e w1,
    recv_with_timeout env sock MOVE_TIMEOUT_SECONDS w = (Exc e, w1) /\
    transport_failure e.
Proof.
  intros Hq. unfold recv_with_timeout, MOVE_TIMEOUT_SECONDS. mred.
  change (30 <? 0)%Z with false. mred.
  destruct (os_settimeout env (clock w) sock); mred.
  - destruct (os_getpeername env _ sock); mred;
      destruct (os_settimeout env _ sock); mred;
      do 2 eexists; (split; [reflexivity|exact I]).
  - rewrite Hq. mred.
    destruct (os_getpeername env _ sock); mred;
      destruct (os_settimeout env _ sock); mred;
      do 2 eexists; (split; [reflexivity|exact I]).
Qed.

Lemma ask_silent (g : game) (w : World) :
  (forall t c, clock w <= t -> os_recv env t c = TimedOut) ->
  exists e w1, ask env p1 p2 g w = (Exc e, w1) /\ transport_failure e.
Proof.
  intros Hq. unfold ask, broadcast, bind.
  repeat (rewrite safe_send_eq;
          match goal with |- context [os_sendall env ?t ?c] =>
            destruct (os_sendall env t c) end;
          [do 2 eexists; (split; [reflexivity|exact I])|]).
  apply recv_with_timeout_silent. apply Hq. cbn [clock advance]. lia.
Qed.

Lemma iteration_silent (g : game) (w : World) :
  (forall t c, clock w <= t -> os_recv env t c = TimedOut) ->
  exists w', iteration env p1 p2 g w = (Ret (Break, g), w').
Proof.
  intros Hq. destruct (@ask_silent g w Hq) as (e & w1 & Hask & He).
  unfold iteration, try_except, body, bind. rewrite Hask.
  destruct e; try contradiction; unfold handlers, bind;
    rewrite notify_remaining_eq; cbv [ret]; eauto.
Qed.

Lemma game_loop_silent (T fuel : nat) (g : game) (w : World) :
  (forall t c, T <= t -> os_recv env t c = TimedOut) ->
  T <= clock w + fuel ->
  exists w', game_loop env p1 p2 (S fuel) g w = (Ret (Some tt), w').
Proof.
  intros Hq. revert g w. induction fuel as [|n IH]; intros g w HT.
  - destruct (@iteration_silent g w) as (w' & Hit).
    { intros t c Ht. apply Hq. lia. }
    cbn [game_loop]. unfold bind. rewrite Hit. cbv [ret]. eauto.
  - pose proof (strict_iteration g w) as Hstep.
    cbn [game_loop] in *. unfold bind at 1.
    destruct (iteration env p1 p2 g w) as [[[c g']|e] w1] eqn:Hit.
    + cbn [snd] in Hstep. destruct c; [|cbv [ret]; eauto].
      apply IH. lia.
    + destruct (iteration_total g w) as (c & g' & w' & Hit').
      congruence.
Qed.

(** X18 -- once nobody sends anything any more (every read from instant
    [T] on times out), [handle_game] returns within [T] + 1 iterations,
    with both sockets closed. *)
Theorem handle_game_returns_when_silent (T : nat) (w : World) :
  (forall t c, T <= t -> os_recv env t c = TimedOut) ->
  exists w',
    handle_game env p1 p2 (S T) w = (Ret (Some tt), w') /\
    closed w' p1 = true /\ closed w' p2 = true.
Proof.
  intros Hq. unfold handle_game, bind.
  destruct (greet_cases (TicTacToe p1 p2) w)
    as [(w1 & Hg) | (w0 & k1 & k2 & Hg)]; rewrite Hg.
  - destruct (@game_loop_silent T T (TicTacToe p1 p2) w1 Hq) as (w2 & Hl);
      [lia|].
    unfold run, bind. rewrite Hl.
    destruct (close_both_eq w2) as (k1 & k2 & Hc). rewrite Hc. cbv [ret].
    eexists. split; [reflexivity|]. cbn [closed].
    apply closed_after_both.
  - eexists. split; [reflexivity|]. cbn [closed]. apply closed_after_both.
Qed.

End SessionFacts.

(** ** The waiting list *)

Section MatchmakingFacts.
Variable env : Env.

Lemma started_app (a b : list Event) : started (a ++ b) = started a ++ started b.
Proof.
  induction a as [|ev a IH]; [reflexivity|].
  destruct ev; simpl; rewrite IH; reflexivity.
Qed.

Lemma offer_eq (conn : Conn) (w : World) :
  offer conn w =
  (Ret tt,
   match clients_waiting w ++ [conn] with
   | a :: b :: rest =>
       mkWorld (clock w) (deadline w) (closed w) (wire w ++ [Start a b]) rest
   | q => mkWorld (clock w) (deadline w) (closed w) (wire w) q
   end).
Proof.
  unfold offer, bind, append_waiting, set_waiting, len_waiting, pop_waiting.
  cbn [clients_waiting].
  destruct (clients_waiting w ++ [conn]) as [|a [|b rest]]; reflexivity.
Qed.

(** Pairing keeps the arrival order: the connections already paired,
    followed by those waiting, are the earlier ones followed by the
    newcomer. *)
Lemma offer_order (conn : Conn) (w : World) :
  let w' := snd (offer conn w) in
  started (wire w') ++ clients_waiting w' =
  started (wire w) ++ clients_waiting w ++ [conn].
Proof.
  rewrite offer_eq. cbn [snd].
  destruct (clients_waiting w ++ [conn]) as [|a [|b rest]] eqn:Hq;
    cbn [wire clients_waiting]; try reflexivity.
  rewrite started_app, <- app_assoc. reflexivity.
Qed.

Lemma offer_all_ret (conns : list Conn) (w : World) :
  fst (offer_all conns w) = Ret tt.
Proof.
  revert w. induction conns as [|c rest IH]; intros w; [reflexivity|].
  simpl. unfold bind. rewrite offer_eq. apply IH.
Qed.

Lemma offer_all_order (conns : list Conn) (w : World) :
  let w' := snd (offer_all conns w) in
  started (wire w') ++ clients_waiting w' =
  started (wire w) ++ clients_waiting w ++ conns.
Proof.
  revert w. induction conns as [|c rest IH]; intros w.
  - simpl. rewrite app_nil_r. reflexivity.
  - simpl. unfold bind. pose proof (offer_order c w) as Ho.
    destruct (offer c w) as [[[]|e] w1] eqn:Hoff.
    + cbn [snd] in Ho. cbv zeta in IH. rewrite IH, app_assoc, Ho.
      rewrite <- !app_assoc. reflexivity.
    + rewrite offer_eq in Hoff. discriminate.
Qed.

Lemma offer_all_short (conns : list Conn) (w : World) :
  List.length (clients_waiting w) <= 1 ->
  List.length (clients_waiting (snd (offer_all conns w))) <= 1.
Proof.
  revert w. induction conns as [|c rest IH]; intros w Hw; [exact Hw|].
  simpl. unfold bind. rewrite offer_eq. apply IH.
  destruct (clients_waiting w) as [|a [|b q]]; simpl in *; lia.
Qed.

(** C8 -- [offer] appends the connection and, when the list then holds at
    least two, takes the two oldest off its front and starts one session
    with them, in that order; otherwise it starts none.  Over any run of
    offers the connections paired so far followed by those still waiting
    are exactly the arrivals in order, so with distinct arrivals no
    connection is paired twice or left waiting once paired, and a list
    that held at most one connection never holds more. *)
Theorem offer_pairs_oldest_two (conn : Conn) (conns : list Conn) (w : World) :
  (let q := clients_waiting w ++ [conn] in
   let w' := snd (offer conn w) in
   fst (offer conn w) = Ret tt /\
   match q with
   | a :: b :: rest =>
       wire w' = wire w ++ [Start a b] /\ clients_waiting w' = rest
   | _ => wire w' = wire w /\ clients_waiting w' = q
   end) /\
  (let w' := snd (offer_all conns w) in
   started (wire w') ++ clients_waiting w' =
     started (wire w) ++ clients_waiting w ++ conns /\
   (NoDup (started (wire w) ++ clients_waiting w ++ conns) ->
    NoDup (started (wire w') ++ clients_waiting w')) /\
   (List.length (clients_waiting w) <= 1 ->
    List.length (clients_waiting w') <= 1)).
Proof.
  split.
  - cbv zeta. rewrite offer_eq. cbn [fst snd]. split; [reflexivity|].
    destruct (clients_waiting w ++ [conn]) as [|a [|b rest]];
      cbn [wire clients_waiting]; split; reflexivity.
  - cbv zeta. pose proof (offer_all_order conns w) as Ho. cbv zeta in Ho.
    split; [exact Ho|]. split.
    + intros Hnd. rewrite Ho. exact Hnd.
    + apply offer_all_short.
Qed.

Lemma client_thread_eq (conn : Conn) (w : World) :
  client_thread env conn w =
  match os_sendall env (clock w) conn with
  | None => offer conn (advance 1 [Send conn welcome true] w)
  | Some _ =>
      let w1 := mkWorld (S (S (clock w))) (deadline w)
                  (upd (closed w) conn true)
                  (wire w ++ [Send conn welcome false;
                              Close conn
                                (match os_close env (S (clock w)) conn with
                                 | None => true | Some _ => false end)])
                  (clients_waiting w) in
      (match os_close env (S (clock w)) conn with
       | None => Ret tt
       | Some d => Exc (OtherError d)
       end, w1)
  end.
Proof.
  unfold client_thread, welcome, advance. mred.
  destruct (os_sendall env (clock w) conn); mred.
  - destruct (os_close env (S (clock w)) conn); mred;
      rewrite <- app_assoc; reflexivity.
  - reflexivity.
Qed.

Lemma client_thread_members (conn x : Conn) (w : World) :
  let w' := snd (client_thread env conn w) in
  In x (started (wire w') ++ clients_waiting w') ->
  In x (started (wire w) ++ clients_waiting w ++ [conn]).
Proof.
  cbv zeta. rewrite client_thread_eq.
  destruct (os_sendall env (clock w) conn).
  - cbn [snd wire clients_waiting]. rewrite started_app. simpl.
    rewrite app_nil_r, !in_app_iff. tauto.
  - pose proof (offer_order conn (advance 1 [Send conn welcome true] w)) as Ho.
    cbv zeta in Ho. rewrite Ho. unfold advance. cbn [wire clients_waiting].
    rewrite started_app. simpl. rewrite app_nil_r. tauto.
Qed.

Lemma serve_members (conns : list Conn) (x : Conn) (w : World) :
  let w' := snd (serve env conns w) in
  In x (started (wire w') ++ clients_waiting w') ->
  In x (started (wire w) ++ clients_waiting w ++ conns).
Proof.
  revert w. induction conns as [|c rest IH]; intros w; cbv zeta in *.
  - simpl. rewrite app_nil_r. tauto.
  - simpl. unfold bind, try_except.
    pose proof (client_thread_members c x w) as Hc. cbv zeta in Hc.
    destruct (client_thread env c w) as [[[]|e] w1]; cbn [snd] in Hc;
      cbv [ret]; intros Hin; apply IH in Hin;
      rewrite !in_app_iff in *; simpl in *; tauto.
Qed.

Lemma serve_keeps_closed (conns : list Conn) (x : Conn) (w : World) :
  closed w x = true -> closed (snd (serve env conns w)) x = true.
Proof.
  revert w. induction conns as [|c rest IH]; intros w Hx; [exact Hx|].
  simpl. unfold bind, try_except. rewrite client_thread_eq.
  destruct (os_sendall env (clock w) c).
  - cbv zeta. destruct (os_close env (S (clock w)) c); cbv [ret];
      apply IH; cbn [closed]; unfold upd;
      destruct (Nat.eqb x c); auto.
  - rewrite offer_eq. cbv [ret]. apply IH.
    destruct (clients_waiting _ ++ [c]) as [|a [|b q]]; exact Hx.
Qed.

(** C10 -- when the welcome cannot be sent, [client_thread] closes the
    connection and leaves the waiting list and the sessions as they were;
    and whatever other connections are served afterwards, a connection
    that was neither waiting nor paired before stays out of the waiting
    list and out of every session, and stays closed. *)
Theorem unwelcomed_never_queued
  (conn : Conn) (later : list Conn) (w : World) (d : text) :
  os_sendall env (clock w) conn = Some d ->
  ~ In conn (started (wire w) ++ clients_waiting w) ->
  ~ In conn later ->
  (let w' := snd (client_thread env conn w) in
   closed w' conn = true /\
   clients_waiting w' = clients_waiting w /\
   exists k, wire w' = wire w ++ [Send conn welcome false; Close conn k]) /\
  (let w'' := snd (serve env (conn :: later) w) in
   closed w'' conn = true /\
   ~ In conn (started (wire w'') ++ clients_waiting w'')).
Proof.
  intros Hsend Hnew Hlater.
  assert (Hct : exists r k,
    client_thread env conn w =
    (r, mkWorld (S (S (clock w))) (deadline w) (upd (closed w) conn true)
          (wire w ++ [Send conn welcome false; Close conn k])
          (clients_waiting w))).
  { rewrite client_thread_eq, Hsend. cbv zeta. eauto. }
  destruct Hct as (r & k & Hct). split.
  - cbv zeta. rewrite Hct. cbn [snd closed clients_waiting wire].
    rewrite upd_same. eauto.
  - cbv zeta. cbn [serve]. unfold bind, try_except. rewrite Hct.
    assert (Hgo : forall w1, closed w1 conn = true ->
              ~ In conn (started (wire w1) ++ clients_waiting w1) ->
              closed (snd (serve env later w1)) conn = true /\
              ~ In conn (started (wire (snd (serve env later w1)))
                         ++ clients_waiting (snd (serve env later w1)))).
    { intros w1 Hcl Hout. split; [apply serve_keeps_closed; exact Hcl|].
      intros Hin. apply serve_members in Hin.
      rewrite app_assoc, in_app_iff in Hin. tauto. }
    assert (Hmid :
      ~ In conn (started (wire w ++ [Send conn welcome false; Close conn k])
                 ++ clients_waiting w)).
    { rewrite started_app. simpl. rewrite app_nil_r. exact Hnew. }
    destruct r; cbv [ret]; apply Hgo; cbn [closed wire clients_waiting];
      auto using upd_same.
Qed.

End MatchmakingFacts.

(** ** The server on concrete inputs *)

Example strip_quit : strip (lit "  quit ") = lit "quit".
Proof. reflexivity. Qed.

Example split_move : split (lit "MOVE  4") = [lit "MOVE"; lit "4"].
Proof. reflexivity. Qed.

Example upper_dotless_i : upper [113; 117; 305; 116]%N = lit "QUIT".
Proof. reflexivity. Qed.

Example isdigit_007 : isdigit (lit "007") = true /\ isdigit (lit "4a") = false.
Proof. split; reflexivity. Qed.

Example utf8_dotless_i : utf8_decode [196; 177]%N = Some [305%N].
Proof. reflexivity. Qed.

Example utf8_stray_byte : utf8_decode [81; 255]%N = None.
Proof. reflexivity. Qed.

Example utf8_stray_byte_text :
  utf8_error [81; 255]%N =
  lit "'utf-8' codec can't decode byte 0xff in position 1: invalid start byte".
Proof. vm_compute. reflexivity. Qed.

Example utf8_cut_short_text :
  utf8_error [81; 226; 130]%N =
  lit "'utf-8' codec can't decode bytes in position 1-2: unexpected end of data".
Proof. vm_compute. reflexivity. Qed.

Example utf8_surrogate_text :
  utf8_error [237; 160; 128]%N =
  lit "'utf-8' codec can't decode byte 0xed in position 0: invalid continuation byte".
Proof. vm_compute. reflexivity. Qed.

(** The decoder blames a sequence exactly when it fails: the text of
    the error is defined for every input that [utf8_decode] rejects, and
    for no other. *)
Lemma utf8_fault_agrees (n : nat) :
  forall (bs : list N) (pos : N),
    List.length bs <= n ->
    (utf8_decode bs = None <-> utf8_fault pos bs <> None).
Proof.
  induction n as [|n IH]; intros bs pos Hn.
  - destruct bs; [|simpl in Hn; lia]. simpl. split; [discriminate|congruence].
  - destruct bs as [|b0 r0]; [simpl; split; [discriminate|congruence]|].
    assert (Hrec : forall r p, List.length r <= n ->
              (option_map (cons p) (utf8_decode r) = None <->
               utf8_decode r = None)).
    { intros r p _. destruct (utf8_decode r); simpl; split; congruence. }
    simpl in Hn. cbn [utf8_decode utf8_fault].
    destruct (b0 <? 128)%N.
    { rewrite Hrec by lia. apply IH. lia. }
    destruct (between 194 223 b0).
    { destruct r0 as [|b1 r1]; [split; [discriminate|reflexivity]|].
      simpl in Hn. destruct (cont b1).
      - rewrite Hrec by lia. apply IH. lia.
      - split; [discriminate|reflexivity]. }
    destruct (between 224 239 b0).
    { destruct r0 as [|b1 [|b2 r2]]; simpl in Hn.
      - split; [discriminate|reflexivity].
      - destruct (if (b0 =? 224)%N then _ else _);
          split; (discriminate || reflexivity).
      - destruct (if (b0 =? 224)%N then _ else _); cbn [andb];
          [|split; [discriminate|reflexivity]].
        destruct (cont b2); [|split; [discriminate|reflexivity]].
        rewrite Hrec by lia. apply IH. lia. }
    destruct (between 240 244 b0).
    { destruct r0 as [|b1 [|b2 [|b3 r3]]]; simpl in Hn.
      - split; [discriminate|reflexivity].
      - destruct (if (b0 =? 240)%N then _ else _);
          split; (discriminate || reflexivity).
      - destruct (if (b0 =? 240)%N then _ else _);
          [destruct (cont b2)|]; split; (discriminate || reflexivity).
      - destruct (if (b0 =? 240)%N then _ else _); cbn [andb];
          [|split; [discriminate|reflexivity]].
        destruct (cont b2); cbn [andb]; [|split; [discriminate|reflexivity]].
        destruct (cont b3); [|split; [discriminate|reflexivity]].
        rewrite Hrec by lia. apply IH. lia. }
    split; [discriminate|reflexivity].
Qed.

Example top_row_game_played :
  let r := handle_game top_row_game 1 2 5 world0 in
  fst r = Ret (Some tt) /\
  skipn 32 (wire (snd r)) =
    [Sendall 1 (lit "You win!" ++ nl) true;
     Sendall 2 (lit "You lose!" ++ nl) true;
     Close 1 true; Close 2 true].
Proof. split; vm_compute; reflexivity. Qed.

Lemma recv_with_timeout_contract_witness :
  fst (recv_with_timeout (answering (bytes_of "  quit ")) 1 30 world0)
  = Ret (lit "quit").
Proof.
  rewrite (@recv_with_timeout_contract (answering (bytes_of "  quit "))
             sample_unicode 1 30%Z world0).
  - vm_compute. reflexivity.
  - vm_compute. discriminate.
Defined.

Lemma terminal_failure_ends_session_witness :
  exists w3,
    run silent 1 2 1 g0 world0 = (Ret (Some tt), w3) /\
    In (Sendall 2 (lit "OPPONENT_TIMEOUT - you win" ++ nl) true) (wire w3) /\
    closed w3 1 = true /\ closed w3 2 = true.
Proof.
  edestruct (@terminal_failure_ends_session sample_unicode sample_engine
               silent 1 2 0 g0 world0)
    as (w3 & Hrun & Hc1 & Hc2 & Hnote).
  - vm_compute. reflexivity.
  - reflexivity.
  - exists w3. split; [exact Hrun|]. split; [|split; assumption].
    destruct Hnote as (ok & k1 & k2 & Hwire & Hok); [reflexivity|].
    rewrite Hwire. apply in_or_app. right. left.
    rewrite (proj2 Hok eq_refl). reflexivity.
Defined.

(** C1 -- the code at the input where it misses the claim: after the
    greetings p1's connection is reset (no send to it succeeds, its peer
    name no longer resolves) while p2 can be reached throughout.  The
    board send raises PlayerDisconnectedError with the fallback address,
    the lookup of p1's name in the handler fails, and the session closes
    both sockets without sending p2, the surviving player, anything. *)
Theorem p1_reset_notifies_nobody :
  let w := snd (greet p1_reset 1 2 g0 world0) in
  (forall t, os_sendall p1_reset t 2 = None) /\
  exists w1,
    body p1_reset 1 2 g0 w =
      (Exc (PlayerDisconnectedError unknown_addr
              (lit "send failed: [Errno 32] Broken pipe")), w1) /\
    run p1_reset 1 2 1 g0 w =
      (Ret (Some tt),
       mkWorld (3 + clock w1) (deadline w1)
         (upd (upd (closed w1) 1 true) 2 true)
         (wire w1 ++ [Close 1 true; Close 2 true]) (clients_waiting w1)).
Proof.
  split; [reflexivity|]. eexists. split; vm_compute; reflexivity.
Qed.

(** When it is p2's connection that is reset, p1 is told. *)
Example p2_reset_notifies_p1 :
  let w := snd (greet p2_reset 1 2 g0 world0) in
  exists w1,
    body p2_reset 1 2 g0 w =
      (Exc (PlayerDisconnectedError unknown_addr
              (lit "send failed: [Errno 32] Broken pipe")), w1) /\
    wire (snd (run p2_reset 1 2 1 g0 w)) =
      wire w1 ++ [Sendall 1 (lit "OPPONENT_DISCONNECTED - you win" ++ nl) true;
                  Close 1 true; Close 2 true].
Proof. eexists. split; vm_compute; reflexivity. Qed.

Lemma quit_ends_session_witness :
  exists w3,
    run (answering (bytes_of "Quit")) 1 2 1 g0 world0 = (Ret (Some tt), w3) /\
    closed w3 1 = true /\ closed w3 2 = true /\
    In (Sendall 2 (lit "OPPONENT_QUIT - you win" ++ nl) true) (wire w3).
Proof.
  edestruct (@quit_ends_session sample_unicode sample_engine (answering (bytes_of "Quit")) 1 2 0 g0
               world0) as (w3 & Hrun & Hc1 & Hc2 & Hnote).
  - vm_compute. reflexivity.
  - reflexivity.
  - exists w3. split; [exact Hrun|]. split; [exact Hc1|]. split; [exact Hc2|].
    destruct Hnote as (_ & ok & k1 & k2 & Hwire & Hok).
    + reflexivity.
    + reflexivity.
    + intros H. exfalso. apply H. reflexivity.
    + rewrite Hwire. apply in_or_app. right. left.
      rewrite (proj2 Hok eq_refl). reflexivity.
Defined.

(** C2 -- the code at the input where it misses the claim: QUIT arrives
    from p1, whose peer name can no longer be resolved.  The lookup made
    to build PlayerQuitError fails, no PlayerQuitError is raised, and
    p2, who can be reached throughout, is sent a server error instead of
    OPPONENT_QUIT - you win. *)
Theorem quit_then_reset_reports_server_error :
  (forall t, os_sendall quit_then_reset t 2 = None) /\
  exists w1,
    ask quit_then_reset 1 2 g0 world0 = (Ret (lit "QUIT"), w1) /\
    fst (reply quit_then_reset 1 2 g0 1 (lit "QUIT") w1) =
      Exc (OtherError (lit "[Errno 107] Transport endpoint is not connected")) /\
    wire (snd (run quit_then_reset 1 2 1 g0 world0)) =
      wire w1 ++
      [Sendall 1 (lit "Server error: [Errno 107] Transport endpoint is not connected" ++ nl) false;
       Sendall 2 (lit "Server error: [Errno 107] Transport endpoint is not connected" ++ nl) true;
       Close 1 true; Close 2 true].
Proof.
  split; [reflexivity|]. eexists.
  split; [vm_compute; reflexivity|]. split; vm_compute; reflexivity.
Qed.

(** C3 -- the code at the input where it misses the claim: p1 sends
    MOVE 1 2, a MOVE line with one token too many, and its peer name can
    no longer be resolved.  The lookup made to build InvalidMessageError
    fails, so no InvalidMessageError is raised and nothing is reported
    inline: the session ends, with a server error sent to p2, who can be
    reached throughout. *)
Theorem malformed_move_then_reset_reports_server_error :
  (forall t, os_sendall garbled_then_reset t 2 = None) /\
  exists w1,
    ask garbled_then_reset 1 2 g0 world0 = (Ret (lit "MOVE 1 2"), w1) /\
    malformed (split (lit "MOVE 1 2")) = true /\
    fst (reply garbled_then_reset 1 2 g0 1 (lit "MOVE 1 2") w1) =
      Exc (OtherError (lit "[Errno 107] Transport endpoint is not connected")) /\
    run garbled_then_reset 1 2 1 g0 world0 =
      (Ret (Some tt), snd (run garbled_then_reset 1 2 1 g0 world0)) /\
    wire (snd (run garbled_then_reset 1 2 1 g0 world0)) =
      wire w1 ++
      [Sendall 1 (lit "Server error: [Errno 107] Transport endpoint is not connected" ++ nl) false;
       Sendall 2 (lit "Server error: [Errno 107] Transport endpoint is not connected" ++ nl) true;
       Close 1 true; Close 2 true].
Proof.
  split; [reflexivity|]. eexists.
  split; [vm_compute; reflexivity|].
  split; [vm_compute; reflexivity|].
  split; [vm_compute; reflexivity|].
  split; vm_compute; reflexivity.
Qed.

(** With the same line from a player whose peer name resolves, the error
    is reported inline and the loop goes on. *)
Lemma reply_to_malformed_input_witness :
  (exists ok w2,
     iteration (answering (bytes_of "MOVE 1 2")) 1 2 g0 world0
       = (Ret (Continue, g0), w2) /\
     In (Sendall 1
           (lit "INVALID_MESSAGE: Malformed MOVE: MOVE 1 2: ('127.0.0.1', 50001)"
            ++ nl) ok) (wire w2)) /\
  (exists w2,
     iteration (answering (bytes_of "hello")) 1 2 g0 world0
       = (Ret (Continue, g0), w2) /\
     In (Sendall 1 (lit "Invalid move format: hello" ++ nl) true) (wire w2)).
Proof.
  split.
  - destruct (@reply_to_malformed_input sample_unicode sample_engine
                (answering (bytes_of "MOVE 1 2")) 1 2 g0 world0
                (snd (ask (answering (bytes_of "MOVE 1 2")) 1 2 g0 world0))
                (lit "MOVE 1 2"))
      as (Hbad & _).
    + vm_compute. reflexivity.
    + vm_compute. discriminate.
    + destruct Hbad as (_ & ok & w2 & Hit & Hwire & _); try reflexivity.
      exists ok, w2. split; [exact Hit|]. rewrite Hwire.
      apply in_or_app. right. left. reflexivity.
  - destruct (@reply_to_malformed_input sample_unicode sample_engine
                (answering (bytes_of "hello")) 1 2 g0 world0
                (snd (ask (answering (bytes_of "hello")) 1 2 g0 world0))
                (lit "hello"))
      as (_ & _ & _ & Hother).
    + vm_compute. reflexivity.
    + vm_compute. discriminate.
    + destruct Hother as (w2 & Hit & Hwire); try reflexivity.
      exists w2. split; [exact Hit|]. rewrite Hwire.
      apply in_or_app. right. left. reflexivity.
Defined.

Lemma winner_announced_witness :
  exists w3,
    run (answering (bytes_of "2")) 1 2 1 top_row_open world0
      = (Ret (Some tt), w3) /\
    closed w3 1 = true /\ closed w3 2 = true /\
    In (Sendall 1 (lit "You win!" ++ nl) true) (wire w3) /\
    In (Sendall 2 (lit "You lose!" ++ nl) true) (wire w3).
Proof.
  edestruct (@winner_announced sample_unicode sample_engine
               (answering (bytes_of "2")) 1 2 0 top_row_open
               (mkTtt 1 2 (ttt_put (t_cells top_row_open) 2 true) 2
                  (Some (lit "X")))
               world0)
    as (w3 & Hrun & Hc1 & Hc2 & Hsent).
  - vm_compute. reflexivity.
  - vm_compute. reflexivity.
  - vm_compute. reflexivity.
  - vm_compute. reflexivity.
  - exists w3. split; [exact Hrun|]. split; [exact Hc1|]. split; [exact Hc2|].
    destruct Hsent as [Hwon _]; [reflexivity|reflexivity|].
    destruct Hwon as (ok1 & ok2 & k1 & k2 & Hwire & Hok1 & Hok2).
    { vm_compute. discriminate. }
    rewrite Hwire.
    assert (H1 : ok1 = true) by (apply Hok1; reflexivity). subst ok1.
    assert (H2 : ok2 = true) by (apply Hok2; reflexivity). subst ok2.
    split; apply in_or_app; right; vm_compute; tauto.
Defined.

(** C6 as stated fails: X completes the top row, and p1's connection is
    lost right after its move was read.  The board cannot be sent to p1,
    which is handled as a disconnection before the winner is looked at:
    p2, who lost the game and can be reached throughout, is never sent
    You lose! and is told OPPONENT_DISCONNECTED - you win instead. *)
Lemma winning_move_then_reset_reads_as_disconnect :
  (forall t, os_sendall (lost_after_reply (bytes_of "2")) t 2 = None) /\
  exists w1 g',
    ask (lost_after_reply (bytes_of "2")) 1 2 top_row_open world0
      = (Ret (lit "2"), w1) /\
    make_move top_row_open 1 (lit "2") = Moved g' /\
    winner g' = Some (lit "X") /\ symbols g' 2 = lit "O" /\
    wire (snd (run (lost_after_reply (bytes_of "2")) 1 2 1 top_row_open
                 world0)) =
      wire w1 ++
      [Sendall 1 (print_board g' ++ nl) false;
       Sendall 2 (lit "OPPONENT_DISCONNECTED - you win" ++ nl) true;
       Close 1 true; Close 2 true].
Proof.
  split; [reflexivity|]. do 2 eexists.
  split; [vm_compute; reflexivity|].
  split; [vm_compute; reflexivity|].
  split; [vm_compute; reflexivity|].
  split; vm_compute; reflexivity.
Defined.

Lemma digits_forwarded_to_engine_witness :
  reply silent 1 2 g0 1 (lit "007") world0 = play silent 1 2 g0 1 (lit "007") world0 /\
  reply silent 1 2 g0 1 (lit "42") world0 =
    (Ret (Continue, g0),
     advance 1 [Sendall 1 (lit "ERROR: OutOfRangeError: Move must be between 0 and 8" ++ nl) true]
       world0).
Proof.
  split.
  - apply (@digits_forwarded_to_engine sample_unicode sample_engine silent 1 2 g0 1 (lit "007") world0).
    reflexivity.
  - destruct (@digits_forwarded_to_engine sample_unicode sample_engine silent 1 2 g0 1 (lit "42") world0)
      as (_ & _ & Hill); [reflexivity|].
    rewrite (Hill (lit "OutOfRangeError") (lit "Move must be between 0 and 8") g0);
      reflexivity.
Defined.

Lemma offer_pairs_oldest_two_witness :
  let w' := snd (offer_all [5; 6; 7; 8; 9] world0) in
  started (wire w') ++ clients_waiting w' = [5; 6; 7; 8; 9] /\
  NoDup (started (wire w') ++ clients_waiting w') /\
  List.length (clients_waiting w') <= 1.
Proof.
  destruct (offer_pairs_oldest_two 5 [5; 6; 7; 8; 9] world0)
    as (_ & Horder & Hnodup & Hshort).
  cbv zeta. split; [exact Horder|]. split.
  - apply Hnodup. simpl.
    repeat (constructor; [simpl; intuition discriminate|]). constructor.
  - apply Hshort. simpl. lia.
Defined.

Lemma unwelcomed_never_queued_witness :
  let w'' := snd (serve first_send_fails [4; 5; 6] world0) in
  closed w'' 4 = true /\
  ~ In 4 (started (wire w'') ++ clients_waiting w'').
Proof.
  apply (@unwelcomed_never_queued first_send_fails 4 [5; 6] world0
           (lit "[Errno 32] Broken pipe")).
  - reflexivity.
  - simpl. tauto.
  - simpl. intuition discriminate.
Defined.


(** * Further properties of the code *)

(** ** [safe_send] and [recv_with_timeout] *)

Section TransportContracts.
Variable env : Env.
Context {U : Unicode}.

Lemma lstrip_head (s : text) (c : N) (r : text) :
  lstrip s = c :: r -> isspace_char c = false.
Proof.
  induction s as [|a s IH]; simpl; [discriminate|].
  destruct (isspace_char a) eqn:Ha; [exact IH|].
  intros H. injection H as <- _. exact Ha.
Qed.

Lemma lstrip_suffix (s : text) : exists p, s = p ++ lstrip s.
Proof.
  induction s as [|a s (p & IH)]; [exists []; reflexivity|].
  simpl. destruct (isspace_char a).
  - exists (a :: p). simpl. rewrite <- IH. reflexivity.
  - exists []. reflexivity.
Qed.

Lemma strip_ends (s : text) :
  (forall c r, strip s = c :: r -> isspace_char c = false) /\
  (forall r c, strip s = r ++ [c] -> isspace_char c = false).
Proof.
  split; unfold strip.
  - intros c r. apply lstrip_head.
  - intros r c H. destruct (lstrip_suffix (rstrip s)) as (p & Hp).
    rewrite H in Hp. unfold rstrip in Hp.
    apply (f_equal (@rev N)) in Hp.
    rewrite rev_involutive, app_assoc, rev_app_distr in Hp. simpl in Hp.
    exact (lstrip_head _ Hp).
Qed.

(** What [recv_with_timeout] can do, whatever the environment does. *)
Lemma recv_with_timeout_cases (sock : Conn) (t : Z) (w : World) :
  wire (snd (recv_with_timeout env sock t w)) = wire w /\
  closed (snd (recv_with_timeout env sock t w)) = closed w /\
  clients_waiting (snd (recv_with_timeout env sock t w)) = clients_waiting w /\
  match fst (recv_with_timeout env sock t w) with
  | Ret s =>
      exists data s',
        os_recv env (S (clock w)) sock = Bytes data /\ data <> [] /\
        utf8_decode data = Some s' /\ s = strip s'
  | Exc e => transport_failure e
  end.
Proof.
  unfold recv_with_timeout. mred.
  destruct (t <? 0)%Z; mred.
  - destruct (os_getpeername env _ sock); mred;
      destruct (os_settimeout env _ sock); mred; repeat split.
  - destruct (os_settimeout env (clock w) sock); mred.
    + destruct (os_getpeername env _ sock); mred;
        destruct (os_settimeout env _ sock); mred; repeat split.
    + destruct (os_recv env _ sock) as [data | | d] eqn:Hrecv; mred.
      * destruct data as [|b data']; mred.
        -- destruct (os_getpeername env _ sock); mred;
             destruct (os_settimeout env _ sock); mred; repeat split.
        -- destruct (utf8_decode (b :: data')) as [s'|] eqn:Hdec; mred.
           ++ destruct (os_settimeout env _ sock); mred;
                (split; [reflexivity|]); (split; [reflexivity|]);
                (split; [reflexivity|]);
                exists (b :: data'), s'; repeat split; auto; discriminate.
           ++ destruct (os_getpeername env _ sock); mred;
                destruct (os_settimeout env _ sock); mred; repeat split.
      * destruct (os_getpeername env _ sock); mred;
          destruct (os_settimeout env _ sock); mred; repeat split.
      * destruct (os_getpeername env _ sock); mred;
          destruct (os_settimeout env _ sock); mred; repeat split.
Qed.

(** X1 -- [safe_send] either delivers the text, which is then the one
    new thing on the wire, or raises PlayerDisconnectedError carrying the
    socket's peer name (the pair unknown, 0 when that cannot be resolved)
    and the cause; it raises nothing else, and it never touches a
    timeout, a closed flag or the waiting list. *)
Theorem safe_send_contract (sock : Conn) (s : text) (w : World) :
  let r := fst (safe_send env sock s w) in
  let w' := snd (safe_send env sock s w) in
  (r = Ret tt /\ wire w' = wire w ++ [Sendall sock s true] \/
   exists d,
     os_sendall env (clock w) sock = Some d /\
     r = Exc (PlayerDisconnectedError (resolved env (S (clock w)) sock)
                (lit "send failed: " ++ d)) /\
     (resolved env (S (clock w)) sock = peername env sock \/
      resolved env (S (clock w)) sock = unknown_addr) /\
     wire w' = wire w ++ [Sendall sock s false]) /\
  deadline w' = deadline w /\ closed w' = closed w /\
  clients_waiting w' = clients_waiting w.
Proof.
  cbv zeta. rewrite safe_send_eq.
  destruct (os_sendall env (clock w) sock) as [d|]; cbn [fst snd].
  - split; [|repeat split]. right. exists d. repeat split.
    unfold resolved. destruct (os_getpeername env (S (clock w)) sock); auto.
  - split; [|repeat split]. left. split; reflexivity.
Qed.

(** X2 -- whatever happens underneath (a refused timeout value, a
    failing [settimeout], a timeout, a reset, an empty read, bytes that
    are not UTF-8), [recv_with_timeout] raises nothing but
    PlayerDisconnectedError and TimeoutWaitingPlayerError, and it sends
    nothing, closes nothing and leaves the waiting list alone. *)
Theorem recv_with_timeout_raises_transport_only
  (sock : Conn) (t : Z) (w : World) :
  (forall e, fst (recv_with_timeout env sock t w) = Exc e ->
             transport_failure e) /\
  wire (snd (recv_with_timeout env sock t w)) = wire w /\
  closed (snd (recv_with_timeout env sock t w)) = closed w /\
  clients_waiting (snd (recv_with_timeout env sock t w)) = clients_waiting w.
Proof.
  destruct (recv_with_timeout_cases sock t w) as (Hw & Hc & Hq & Hr).
  repeat split; auto. intros e He. rewrite He in Hr. exact Hr.
Qed.

(** X3 -- a text that [recv_with_timeout] returns comes from a read that
    was not empty, and neither begins nor ends with white space (it may
    be empty: a read of blanks only). *)
Theorem recv_with_timeout_returns_trimmed
  (sock : Conn) (t : Z) (w : World) (s : text) :
  fst (recv_with_timeout env sock t w) = Ret s ->
  (exists data, os_recv env (S (clock w)) sock = Bytes data /\ data <> []) /\
  (forall c r, s = c :: r -> isspace_char c = false) /\
  (forall r c, s = r ++ [c] -> isspace_char c = false).
Proof.
  intros H. destruct (recv_with_timeout_cases sock t w) as (_ & _ & _ & Hr).
  rewrite H in Hr. destruct Hr as (data & s' & Hrecv & Hne & _ & ->).
  split; [eauto|]. apply strip_ends.
Qed.

(** X4 -- a negative bound never reaches the socket: no read is made,
    the refusal is reported as PlayerDisconnectedError, and the socket is
    left without a timeout after two socket calls (the peer-name lookup
    and the final [settimeout(None)]). *)
Theorem recv_with_timeout_negative_bound (sock : Conn) (t : Z) (w : World) :
  (t < 0)%Z ->
  fst (recv_with_timeout env sock t w) =
    Exc (PlayerDisconnectedError (resolved env (clock w) sock)
           (lit "recv failed: Timeout value out of range")) /\
  clock (snd (recv_with_timeout env sock t w)) = 2 + clock w /\
  deadline (snd (recv_with_timeout env sock t w)) sock = None.
Proof.
  intros Ht. apply Z.ltb_lt in Ht. unfold recv_with_timeout, resolved. mred.
  rewrite Ht. mred.
  destruct (os_getpeername env (clock w) sock); mred;
    destruct (os_settimeout env _ sock); mred;
    rewrite upd_same; repeat split.
Qed.

End TransportContracts.

(** ** The session when the sockets work *)

Section SessionBehaviour.
Context {U : Unicode} {E : Engine}.
Variable env : Env.
Variables p1 p2 : Conn.
Hypothesis calls_ok : all_calls_succeed env.

Lemma send_ok (c : Conn) (s : text) (w : World) :
  safe_send env c s w = (Ret tt, advance 1 [Sendall c s true] w).
Proof.
  rewrite safe_send_eq. destruct (calls_ok (clock w) c) as (_ & -> & _).
  reflexivity.
Qed.

Lemma receive_ok (sock : Conn) (w : World) :
  recv_with_timeout env sock MOVE_TIMEOUT_SECONDS w =
  match os_recv env (S (clock w)) sock with
  | Bytes [] =>
      (Exc (PlayerDisconnectedError (peername env sock)
              (lit "client closed connection")), after_receive 4 sock w)
  | Bytes data =>
      match utf8_decode data with
      | Some s => (Ret (strip s), after_receive 3 sock w)
      | None =>
          (Exc (PlayerDisconnectedError (peername env sock)
                  (lit "recv failed: " ++ utf8_error data)),
           after_receive 4 sock w)
      end
  | TimedOut =>
      (Exc (TimeoutWaitingPlayerError (peername env sock)
              (lit "Timed out after " ++ str_int MOVE_TIMEOUT_SECONDS
               ++ lit " seconds")), after_receive 4 sock w)
  | RecvError d =>
      (Exc (PlayerDisconnectedError (peername env sock)
              (lit "recv failed: " ++ d)), after_receive 4 sock w)
  end.
Proof.
  assert (Hset : forall t, os_settimeout env t sock = None)
    by (intros t; apply (calls_ok t sock)).
  assert (Hname : forall t, os_getpeername env t sock = None)
    by (intros t; apply (calls_ok t sock)).
  unfold recv_with_timeout, after_receive. mred.
  change (MOVE_TIMEOUT_SECONDS <? 0)%Z with false. mred.
  rewrite Hset. mred.
  destruct (os_recv env (S (clock w)) sock) as [data | | d]; mred.
  - destruct data as [|b data']; mred.
    + rewrite Hname. mred. rewrite Hset. reflexivity.
    + destruct (utf8_decode (b :: data')); mred.
      * rewrite Hset. reflexivity.
      * rewrite Hname. mred. rewrite Hset. reflexivity.
  - rewrite Hname. mred. rewrite Hset. reflexivity.
  - rewrite Hname. mred. rewrite Hset. reflexivity.
Qed.

Lemma ask_ok (g : game) (w : World) :
  ask env p1 p2 g w =
  recv_with_timeout env (turn g) MOVE_TIMEOUT_SECONDS
    (advance 4 (opening p1 p2 g) w).
Proof.
  unfold ask, broadcast, bind. rewrite !send_ok.
  rewrite !advance_advance. reflexivity.
Qed.

Lemma close_both_ok (w : World) :
  close_both env p1 p2 w =
  (Ret tt,
   mkWorld (2 + clock w) (deadline w) (upd (upd (closed w) p1 true) p2 true)
     (wire w ++ [Close p1 true; Close p2 true]) (clients_waiting w)).
Proof.
  unfold close_both, bind. rewrite !close_eq.
  cbn [clock deadline closed wire clients_waiting].
  destruct (calls_ok (clock w) p1) as (_ & _ & _ & ->).
  destruct (calls_ok (S (clock w)) p2) as (_ & _ & _ & ->).
  rewrite <- app_assoc. reflexivity.
Qed.

Lemma notify_ok (a : Addr) (notice : text) (w : World) :
  notify_remaining env p1 p2 a notice w =
  (Ret tt,
   advance 2 [Sendall (if addr_eq_dec a (peername env p1) then p2 else p1)
                notice true] w).
Proof.
  rewrite notify_remaining_eq.
  destruct (calls_ok (clock w) p1) as (-> & _).
  cbv zeta.
  destruct (calls_ok (S (clock w))
              (if addr_eq_dec a (peername env p1) then p2 else p1))
    as (_ & -> & _).
  reflexivity.
Qed.

(** With distinct peer names, the address test of the handlers singles
    out the player who is not to move. *)
Lemma survivor_is_other (g : game) :
  peername env p1 <> peername env p2 ->
  turn g = p1 \/ turn g = p2 ->
  (if addr_eq_dec (peername env (turn g)) (peername env p1) then p2 else p1)
  = (if Nat.eqb (turn g) p1 then p2 else p1).
Proof.
  intros Hdiff [Ht | Ht]; rewrite Ht.
  - rewrite Nat.eqb_refl.
    destruct (addr_eq_dec (peername env p1) (peername env p1)); congruence.
  - destruct (addr_eq_dec (peername env p2) (peername env p1)) as [Heq|_];
      [congruence|].
    destruct (Nat.eqb_spec p2 p1) as [Hsame|_]; [|reflexivity].
    congruence.
Qed.

(** A failure of the player to move, met while waiting for its reply,
    ends the session with one notice to the other player. *)
Lemma lost_while_waiting
  (fuel : nat) (g : game) (w : World) (e : exn) (notice : text) (n : nat) :
  peername env p1 <> peername env p2 ->
  turn g = p1 \/ turn g = p2 ->
  recv_with_timeout env (turn g) MOVE_TIMEOUT_SECONDS
    (advance 4 (opening p1 p2 g) w)
  = (Exc e, after_receive n (turn g) (advance 4 (opening p1 p2 g) w)) ->
  terminal_notice e = Some (peername env (turn g), notice) ->
  exists w',
    run env p1 p2 (S fuel) g w = (Ret (Some tt), w') /\
    wire w' =
      wire w ++ opening p1 p2 g
      ++ [Sendall (if Nat.eqb (turn g) p1 then p2 else p1) notice true;
          Close p1 true; Close p2 true].
Proof.
  intros Hdiff Hturn Hrecv Hterm.
  assert (Hh : forall x, handlers env p1 p2 g (turn g) e x =
               bind (notify_remaining env p1 p2 (peername env (turn g)) notice)
                    (fun _ => ret (Break, g)) x).
  { intros x. destruct e; simpl in Hterm; try discriminate;
      injection Hterm as <- <-; reflexivity. }
  unfold run, bind. cbn [game_loop]. unfold bind, iteration, try_except, body.
  unfold bind. rewrite ask_ok, Hrecv, Hh. unfold bind.
  rewrite notify_ok, (survivor_is_other g Hdiff Hturn). cbv [ret].
  rewrite close_both_ok. eexists. split; [reflexivity|].
  unfold advance, after_receive. cbn [wire]. rewrite <- !app_assoc.
  reflexivity.
Qed.

(** X5 -- when the player to move lets the move timeout pass, the other
    player, and nobody else, is sent OPPONENT_TIMEOUT - you win right
    after the boards and prompts of that iteration, and both sockets are
    closed. *)
Theorem silent_player_loses (fuel : nat) (g : game) (w : World) :
  peername env p1 <> peername env p2 ->
  turn g = p1 \/ turn g = p2 ->
  os_recv env (5 + clock w) (turn g) = TimedOut ->
  exists w',
    run env p1 p2 (S fuel) g w = (Ret (Some tt), w') /\
    wire w' =
      wire w ++ opening p1 p2 g
      ++ [Sendall (if Nat.eqb (turn g) p1 then p2 else p1)
            (lit "OPPONENT_TIMEOUT - you win" ++ nl) true;
          Close p1 true; Close p2 true].
Proof.
  intros Hdiff Hturn Hrecv.
  eapply lost_while_waiting; try eassumption.
  - rewrite receive_ok. cbn [clock advance Nat.add] in *.
    rewrite Hrecv. reflexivity.
  - reflexivity.
Qed.

(** X6 -- when the player to move has closed its connection (the read
    returns no bytes), the other player is sent
    OPPONENT_DISCONNECTED - you win right after the boards and prompts of
    that iteration, and both sockets are closed. *)
Theorem departed_player_loses (fuel : nat) (g : game) (w : World) :
  peername env p1 <> peername env p2 ->
  turn g = p1 \/ turn g = p2 ->
  os_recv env (5 + clock w) (turn g) = Bytes [] ->
  exists w',
    run env p1 p2 (S fuel) g w = (Ret (Some tt), w') /\
    wire w' =
      wire w ++ opening p1 p2 g
      ++ [Sendall (if Nat.eqb (turn g) p1 then p2 else p1)
            (lit "OPPONENT_DISCONNECTED - you win" ++ nl) true;
          Close p1 true; Close p2 true].
Proof.
  intros Hdiff Hturn Hrecv.
  eapply lost_while_waiting; try eassumption.
  - rewrite receive_ok. cbn [clock advance Nat.add] in *.
    rewrite Hrecv. reflexivity.
  - reflexivity.
Qed.

Lemma greet_ok (g : game) (w : World) :
  greet env p1 p2 g w =
  (Ret true,
   advance 2 [Sendall p1 (lit "Game start! You are " ++ symbols g p1 ++ nl) true;
              Sendall p2 (lit "Game start! You are " ++ symbols g p2 ++ nl) true]
     w).
Proof.
  unfold greet, try_except, bind. rewrite !send_ok. cbv [ret].
  rewrite advance_advance. reflexivity.
Qed.

(** A reply that is neither QUIT, nor of the MOVE form, nor all digits:
    the player gets the format notice and the iteration ends with the
    game untouched. *)
Lemma iteration_on_other_text (g : game) (w : World) (data : list N) (s : text) :
  os_recv env (5 + clock w) (turn g) = Bytes data ->
  data <> [] ->
  utf8_decode data = Some s ->
  upper (strip s) <> lit "QUIT" ->
  startswith (upper (strip s)) (lit "MOVE ") = false ->
  isdigit (strip s) = false ->
  iteration env p1 p2 g w =
  (Ret (Continue, g),
   advance 1 [Sendall (turn g) (lit "Invalid move format: " ++ strip s ++ nl) true]
     (after_receive 3 (turn g) (advance 4 (opening p1 p2 g) w))).
Proof.
  intros Hrecv Hne Hdec Hq Hm Hd.
  unfold iteration, try_except, body, bind. rewrite ask_ok, receive_ok.
  cbn [clock advance Nat.add] in *. rewrite Hrecv.
  destruct data as [|b data']; [contradiction|]. rewrite Hdec.
  unfold reply, bind, parse_reply.
  destruct (text_eq_dec (upper (strip s)) (lit "QUIT")); [contradiction|].
  rewrite Hm, Hd. unfold bind. rewrite send_ok. reflexivity.
Qed.

(** X7 -- there is no limit on malformed input: as long as every read
    brings a text that is neither QUIT, nor of the MOVE form, nor all
    digits, the loop of [handle_game] never breaks, however many
    iterations it is given. *)
Theorem malformed_input_never_ends_session (data : list N) (s : text) :
  (forall t c, os_recv env t c = Bytes data) ->
  data <> [] ->
  utf8_decode data = Some s ->
  upper (strip s) <> lit "QUIT" ->
  startswith (upper (strip s)) (lit "MOVE ") = false ->
  isdigit (strip s) = false ->
  forall fuel w, fst (handle_game env p1 p2 fuel w) = Ret None.
Proof.
  intros Hrecv Hne Hdec Hq Hm Hd fuel w.
  assert (Hloop : forall n g x,
            fst (game_loop env p1 p2 n g x) = Ret None).
  { induction n as [|n IH]; intros g x; [reflexivity|].
    cbn [game_loop]. unfold bind.
    rewrite (iteration_on_other_text g x (Hrecv _ _) Hne Hdec Hq Hm Hd).
    apply IH. }
  unfold handle_game, bind. rewrite greet_ok. unfold run, bind.
  specialize (Hloop fuel (TicTacToe p1 p2)
    (advance 2
       [Sendall p1 (lit "Game start! You are "
                    ++ symbols (TicTacToe p1 p2) p1 ++ nl) true;
        Sendall p2 (lit "Game start! You are "
                    ++ symbols (TicTacToe p1 p2) p2 ++ nl) true] w)).
  destruct (game_loop env p1 p2 fuel _ _) as [r x]. cbn [fst] in Hloop.
  rewrite Hloop. reflexivity.
Qed.

Lemma ascii_space_facts (b : N) :
  ascii_space b = true -> (b <? 128)%N = true /\ isspace_char b = true.
Proof.
  unfold ascii_space, isspace_char, between. intros H.
  assert (Hlt : (b < 128)%N).
  { repeat (apply orb_true_iff in H; destruct H as [H|H]);
      [apply andb_true_iff in H; destruct H as [_ H]; apply N.leb_le in H; lia
      |apply andb_true_iff in H; destruct H as [_ H]; apply N.leb_le in H; lia
      |apply N.eqb_eq in H; lia]. }
  apply N.ltb_lt in Hlt. rewrite Hlt. split; [reflexivity|exact H].
Qed.

Lemma utf8_decode_ascii (data : list N) :
  forallb (fun b => (b <? 128)%N) data = true -> utf8_decode data = Some data.
Proof.
  induction data as [|b data IH]; [reflexivity|]. simpl. intros H.
  apply andb_true_iff in H. destruct H as [Hb Hrest].
  rewrite Hb, (IH Hrest). reflexivity.
Qed.

Lemma lstrip_blank (s : text) :
  forallb isspace_char s = true -> lstrip s = [].
Proof.
  induction s as [|c s IH]; [reflexivity|]. simpl. intros H.
  apply andb_true_iff in H. destruct H as [Hc Hs]. rewrite Hc. auto.
Qed.

Lemma strip_blank (s : text) : forallb isspace_char s = true -> strip s = [].
Proof.
  intros H. unfold strip, rstrip.
  assert (Hrev : lstrip (rev s) = []).
  { apply lstrip_blank. apply forallb_forall. intros x Hx.
    apply in_rev in Hx. exact (proj1 (forallb_forall _ _) H x Hx). }
  rewrite Hrev. reflexivity.
Qed.

(** X8 -- when every socket call other than the read succeeds, a reply
    made of ASCII white space only (an empty line, blanks) is not taken
    for a closed connection: the player to move gets the format notice,
    with nothing after the colon, and the iteration ends with the game
    untouched. *)
Theorem blank_reply_is_a_format_error (g : game) (w : World) (data : list N) :
  os_recv env (5 + clock w) (turn g) = Bytes data ->
  data <> [] ->
  forallb ascii_space data = true ->
  exists w',
    iteration env p1 p2 g w = (Ret (Continue, g), w') /\
    wire w' =
      wire w ++ opening p1 p2 g
      ++ [Sendall (turn g) (lit "Invalid move format: " ++ nl) true].
Proof.
  intros Hrecv Hne Hblank.
  assert (Hdec : utf8_decode data = Some data).
  { apply utf8_decode_ascii. apply forallb_forall. intros b Hb.
    apply (ascii_space_facts b).
    exact (proj1 (forallb_forall _ _) Hblank b Hb). }
  assert (Hstrip : strip data = []).
  { apply strip_blank. apply forallb_forall. intros b Hb.
    apply (ascii_space_facts b).
    exact (proj1 (forallb_forall _ _) Hblank b Hb). }
  rewrite (iteration_on_other_text g w Hrecv Hne Hdec);
    rewrite ?Hstrip; try reflexivity; [|discriminate].
  eexists. split; [reflexivity|].
  unfold advance, after_receive. cbn [wire]. rewrite <- !app_assoc.
  reflexivity.
Qed.

(** X9 -- when every socket call other than the read succeeds and the
    engine refuses the move as illegal, only the player to move hears of
    it, and the loop goes on with the game as the engine left it: the
    next iteration opens by sending both players that game's board and
    prompting again. *)
Theorem illegal_move_reprompts
  (g g' : game) (w w1 : World) (m move_arg name detail : text) :
  ask env p1 p2 g w = (Ret m, w1) ->
  parse_reply env (turn g) m w1 = (Ret (MoveArg move_arg), w1) ->
  make_move g (turn g) move_arg = IllegalMove name detail g' ->
  exists w2,
    iteration env p1 p2 g w = (Ret (Continue, g'), w2) /\
    wire w2 =
      wire w1 ++ [Sendall (turn g)
                    (lit "ERROR: " ++ name ++ lit ": " ++ detail ++ nl) true] /\
    wire (snd (ask env p1 p2 g' w2)) = wire w2 ++ opening p1 p2 g'.
Proof.
  intros Hask Hparse Hmove.
  unfold iteration, try_except, body, bind. rewrite Hask.
  unfold reply, bind. rewrite Hparse. unfold play. rewrite Hmove.
  unfold bind. rewrite send_ok. cbv [ret]. eexists.
  split; [reflexivity|]. split; [reflexivity|].
  rewrite ask_ok.
  destruct (recv_with_timeout_cases env (turn g') MOVE_TIMEOUT_SECONDS
              (advance 4 (opening p1 p2 g')
                 (advance 1
                    [Sendall (turn g)
                       (lit "ERROR: " ++ name ++ lit ": " ++ detail ++ nl) true]
                    w1))) as (Hw & _).
  rewrite Hw. reflexivity.
Qed.

(** X10 -- when every socket call other than the read succeeds and the
    engine does not recognise the player, that player is sent the error
    and the session ends: the sockets are closed without a word to the
    other player. *)
Theorem unrecognised_player_ends_session
  (fuel : nat) (g g' : game) (w w1 : World) (m move_arg detail : text) :
  ask env p1 p2 g w = (Ret m, w1) ->
  parse_reply env (turn g) m w1 = (Ret (MoveArg move_arg), w1) ->
  make_move g (turn g) move_arg = PlayerNotRecognized detail g' ->
  exists w',
    run env p1 p2 (S fuel) g w = (Ret (Some tt), w') /\
    wire w' =
      wire w1 ++ [Sendall (turn g)
                    (lit "ERROR: Player not recognized: " ++ detail ++ nl) true;
                  Close p1 true; Close p2 true].
Proof.
  intros Hask Hparse Hmove.
  unfold run, bind. cbn [game_loop].
  unfold bind, iteration, try_except, body, bind. rewrite Hask.
  unfold reply, bind. rewrite Hparse. unfold play. rewrite Hmove.
  unfold bind. rewrite send_ok. cbv [ret]. rewrite close_both_ok.
  eexists. split; [reflexivity|].
  unfold advance. cbn [wire]. rewrite <- app_assoc. reflexivity.
Qed.

(** X19 -- a move that the engine accepts and that leaves the game
    undecided is shown to both players, and the loop goes on: the next
    iteration sends both players that same board once more before it
    prompts, so each player receives every new board twice in a row. *)
Theorem accepted_move_shows_board_twice
  (g g' : game) (w w1 : World) (m move_arg : text) :
  ask env p1 p2 g w = (Ret m, w1) ->
  parse_reply env (turn g) m w1 = (Ret (MoveArg move_arg), w1) ->
  make_move g (turn g) move_arg = Moved g' ->
  winner g' = None \/ winner g' = Some [] ->
  exists w2,
    iteration env p1 p2 g w = (Ret (Continue, g'), w2) /\
    wire w2 =
      wire w1 ++ [Sendall p1 (print_board g' ++ nl) true;
                  Sendall p2 (print_board g' ++ nl) true] /\
    wire (snd (ask env p1 p2 g' w2)) = wire w2 ++ opening p1 p2 g'.
Proof.
  intros Hask Hparse Hmove Hwin.
  unfold iteration, try_except, body, bind. rewrite Hask.
  unfold reply, bind. rewrite Hparse. unfold play. rewrite Hmove.
  unfold bind, broadcast, bind. rewrite !send_ok, advance_advance.
  assert (Hgo : announce env p1 p2 g' = ret Continue).
  { unfold announce. destruct Hwin as [-> | ->]; reflexivity. }
  rewrite Hgo. cbv [ret]. eexists.
  split; [reflexivity|]. split; [reflexivity|].
  rewrite ask_ok.
  match goal with |- context [recv_with_timeout env ?c ?t ?x] =>
    destruct (recv_with_timeout_cases env c t x) as (Hw & _) end.
  rewrite Hw. reflexivity.
Qed.

End SessionBehaviour.

(** ** The session whatever the sockets do *)

Section SessionEdges.
Context {U : Unicode} {E : Engine}.
Variable env : Env.
Variables p1 p2 : Conn.

(** X11 -- when a greeting cannot be sent, [handle_game] closes both
    sockets and returns without entering the loop: if p1's greeting
    fails p2 is sent nothing at all, and if p2's fails p1 has its
    greeting and no further word. *)
Theorem failed_greeting_ends_session (fuel : nat) (w : World) :
  let hello s :=
    lit "Game start! You are " ++ symbols (TicTacToe p1 p2) s ++ nl in
  (os_sendall env (clock w) p1 <> None ->
   exists k1 k2 w',
     handle_game env p1 p2 fuel w = (Ret (Some tt), w') /\
     wire w' = wire w ++ [Sendall p1 (hello p1) false;
                          Close p1 k1; Close p2 k2]) /\
  (os_sendall env (clock w) p1 = None ->
   os_sendall env (S (clock w)) p2 <> None ->
   exists k1 k2 w',
     handle_game env p1 p2 fuel w = (Ret (Some tt), w') /\
     wire w' = wire w ++ [Sendall p1 (hello p1) true;
                          Sendall p2 (hello p2) false;
                          Close p1 k1; Close p2 k2]).
Proof.
  cbv zeta. split.
  - intros Hfail. unfold handle_game, bind, greet, try_except, bind.
    rewrite safe_send_eq.
    destruct (os_sendall env (clock w) p1); [|contradiction].
    match goal with |- context [close_both env p1 p2 ?x] =>
      destruct (close_both_eq env p1 p2 x) as (k1 & k2 & Hc) end.
    rewrite Hc. cbv [ret]. exists k1, k2. eexists. split; [reflexivity|].
    unfold advance. cbn [wire]. rewrite <- app_assoc. reflexivity.
  - intros Hok Hfail. unfold handle_game, bind, greet, try_except, bind.
    rewrite safe_send_eq, Hok, safe_send_eq. cbn [clock advance Nat.add].
    destruct (os_sendall env (S (clock w)) p2); [|contradiction].
    match goal with |- context [close_both env p1 p2 ?x] =>
      destruct (close_both_eq env p1 p2 x) as (k1 & k2 & Hc) end.
    rewrite Hc. cbv [ret]. exists k1, k2. eexists. split; [reflexivity|].
    unfold advance. cbn [wire]. rewrite <- !app_assoc. reflexivity.
Qed.

(** The two sends of the GAME OVER branch, inside their
    [try ... except Exception: pass]. *)
Lemma last_words_eq (s : Conn) (x y : text) (w : World) :
  swallow (bind (safe_send env s x) (fun _ => safe_send env s y)) w =
  (Ret tt,
   match os_sendall env (clock w) s with
   | Some _ => advance 2 [Sendall s x false] w
   | None =>
       match os_sendall env (S (clock w)) s with
       | Some _ => advance 3 [Sendall s x true; Sendall s y false] w
       | None => advance 2 [Sendall s x true; Sendall s y true] w
       end
   end).
Proof.
  unfold swallow, try_except, bind. rewrite safe_send_eq.
  destruct (os_sendall env (clock w) s); [reflexivity|].
  rewrite safe_send_eq. cbn [clock advance Nat.add].
  destruct (os_sendall env (S (clock w)) s); cbv [ret];
    rewrite advance_advance; reflexivity.
Qed.

Lemma bind_eq {A B} (m : M A) (k : A -> M B) (a : A) (w w' : World) :
  m w = (Ret a, w') -> bind m k w = k a w'.
Proof. intros H. unfold bind. rewrite H. reflexivity. Qed.

(** X12 -- when the engine answers the move with GameOverError, the
    session ends with both sockets closed whatever the sends do, and
    each player is served on its own: a player whose connection works is
    sent the final board and the GAME OVER notice even when the sends to
    the other player fail. *)
Theorem game_over_is_announced_best_effort
  (fuel : nat) (g g' : game) (w w1 : World) (m move_arg detail : text) :
  ask env p1 p2 g w = (Ret m, w1) ->
  parse_reply env (turn g) m w1 = (Ret (MoveArg move_arg), w1) ->
  make_move g (turn g) move_arg = GameOver detail g' ->
  exists w',
    run env p1 p2 (S fuel) g w = (Ret (Some tt), w') /\
    closed w' p1 = true /\ closed w' p2 = true /\
    forall s, s = p1 \/ s = p2 ->
      (forall t, os_sendall env t s = None) ->
      In (Sendall s (print_board g' ++ nl) true) (wire w') /\
      In (Sendall s (lit "GAME OVER: " ++ detail ++ nl) true) (wire w').
Proof.
  intros Hask Hparse Hmove.
  unfold run, bind. cbn [game_loop].
  unfold bind, iteration, try_except, body, bind. rewrite Hask.
  unfold reply, bind. rewrite Hparse. unfold play. rewrite Hmove.
  cbv beta zeta.
  erewrite bind_eq by apply last_words_eq.
  erewrite bind_eq by apply last_words_eq.
  cbv [ret].
  match goal with |- context [close_both env p1 p2 ?x] =>
    destruct (close_both_eq env p1 p2 x) as (k1 & k2 & Hc) end.
  rewrite Hc. eexists. split; [reflexivity|]. cbn [closed].
  match goal with |- context [upd (upd ?f p1 true) p2 true] =>
    destruct (closed_after_both p1 p2 f) as [H1 H2] end.
  split; [exact H1|]. split; [exact H2|]. clear Hc H1 H2.
  intros s [-> | ->] Hs; cbn [wire].
  - rewrite !Hs.
    match goal with |- context [os_sendall env ?t p2] =>
      destruct (os_sendall env t p2) end;
      try match goal with |- context [os_sendall env ?t p2] =>
        destruct (os_sendall env t p2) end;
      unfold advance; cbn [wire]; rewrite !in_app_iff; simpl; tauto.
  - destruct (os_sendall env (clock w1) p1);
      [|destruct (os_sendall env (S (clock w1)) p1)];
      rewrite !Hs; unfold advance; cbn [wire]; rewrite !in_app_iff;
      simpl; tauto.
Qed.

(** X13 -- an exception of the body that is none of the four server
    errors (an engine fault, an OSError from an unguarded call) puts the
    session on its last path: Server error and the cause are sent to p1
    and to p2, each on its own, then both sockets are closed. *)
Theorem unexpected_failure_reports_server_error
  (fuel : nat) (g : game) (w w1 : World) (d : text) :
  body env p1 p2 g w = (Exc (OtherError d), w1) ->
  exists ok1 ok2 k1 k2 w',
    run env p1 p2 (S fuel) g w = (Ret (Some tt), w') /\
    wire w' =
      wire w1 ++ [Sendall p1 (lit "Server error: " ++ d ++ nl) ok1;
                  Sendall p2 (lit "Server error: " ++ d ++ nl) ok2;
                  Close p1 k1; Close p2 k2] /\
    (ok1 = true <-> os_sendall env (clock w1) p1 = None) /\
    ((forall t, os_sendall env t p2 = None) -> ok2 = true).
Proof.
  intros Hbody. unfold run, bind. cbn [game_loop].
  unfold bind, iteration, try_except. rewrite Hbody.
  unfold handlers, bind. rewrite !swallow_safe_send_eq. cbv [ret str_exn].
  match goal with |- context [close_both env p1 p2 ?x] =>
    destruct (close_both_eq env p1 p2 x) as (k1 & k2 & Hc) end.
  rewrite Hc. clear Hc.
  destruct (os_sendall env (clock w1) p1) eqn:Hs1;
    cbn [clock advance Nat.add];
    match goal with |- context [os_sendall env ?t p2] =>
      destruct (os_sendall env t p2) eqn:Hs2 end.
  - exists false, false, k1, k2. eexists. split; [reflexivity|].
    split; [unfold advance; cbn [wire]; rewrite <- !app_assoc; reflexivity|].
    split; [split; discriminate|].
    intros Hall. rewrite Hall in Hs2. discriminate.
  - exists false, true, k1, k2. eexists. split; [reflexivity|].
    split; [unfold advance; cbn [wire]; rewrite <- !app_assoc; reflexivity|].
    split; [split; discriminate|]. reflexivity.
  - exists true, false, k1, k2. eexists. split; [reflexivity|].
    split; [unfold advance; cbn [wire]; rewrite <- !app_assoc; reflexivity|].
    split; [split; reflexivity|].
    intros Hall. rewrite Hall in Hs2. discriminate.
  - exists true, true, k1, k2. eexists. split; [reflexivity|].
    split; [unfold advance; cbn [wire]; rewrite <- !app_assoc; reflexivity|].
    split; [split; reflexivity|]. reflexivity.
Qed.

(** *** The MOVE form and the bare form *)

Lemma split_from_word (s word : text) :
  (forall c, In c s -> isspace_char c = false) ->
  s <> [] \/ word <> [] ->
  split_from word s = [rev word ++ s].
Proof.
  revert word. induction s as [|c r IH]; intros word Hs Hne.
  - destruct Hne as [Hne|Hne]; [contradiction|].
    simpl. rewrite app_nil_r. destruct word; [contradiction|reflexivity].
  - simpl. rewrite (Hs c (or_introl eq_refl)).
    rewrite IH; [|intros x Hx; apply Hs; right; exact Hx|right; discriminate].
    simpl. rewrite <- app_assoc. reflexivity.
Qed.

Lemma split_two_words (x y word : text) (sp : N) :
  (forall c, In c x -> isspace_char c = false) ->
  (forall c, In c y -> isspace_char c = false) ->
  y <> [] ->
  isspace_char sp = true ->
  x <> [] \/ word <> [] ->
  split_from word (x ++ sp :: y) = [rev word ++ x; y].
Proof.
  intros Hx Hy Hny Hsp. revert word Hx.
  induction x as [|c r IH]; intros word Hx Hne.
  - destruct Hne as [Hne|Hne]; [contradiction|].
    simpl. rewrite Hsp, app_nil_r.
    rewrite (@split_from_word y [] Hy (or_introl Hny)).
    destruct word; [contradiction|reflexivity].
  - simpl. rewrite (Hx c (or_introl eq_refl)).
    rewrite IH; [|intros z Hz; apply Hx; right; exact Hz|right; discriminate].
    simpl. rewrite <- app_assoc. reflexivity.
Qed.

Lemma ascii_upper_letter (x k : N) :
  ascii_upper x = k -> (65 <= k <= 90)%N ->
  isspace_char x = false /\ (ascii_upper x < 128)%N.
Proof.
  unfold ascii_upper, isspace_char, between. intros Hx Hk.
  destruct (97 <=? x)%N eqn:H1; destruct (x <=? 122)%N eqn:H2; simpl in Hx;
    rewrite ?N.leb_le, ?N.leb_gt in *;
    (assert (Hlt : (x < 128)%N) by lia); apply N.ltb_lt in Hlt; rewrite Hlt;
    (split; [|simpl; lia]);
    repeat (apply orb_false_iff; split);
    try (apply andb_false_iff; right; apply N.leb_gt; lia);
    apply N.eqb_neq; lia.
Qed.

Lemma ascii_upper_blank (x : N) : ascii_upper x = 32%N -> x = 32%N.
Proof.
  unfold ascii_upper, between. intros Hx.
  destruct (97 <=? x)%N eqn:H1; destruct (x <=? 122)%N eqn:H2; simpl in Hx;
    rewrite ?N.leb_le, ?N.leb_gt in *; lia.
Qed.

Lemma upper_app (a b : text) : upper (a ++ b) = upper a ++ upper b.
Proof. unfold upper. apply flat_map_app. Qed.

Lemma parse_reply_move_form (current : Conn) (p d : text) (w : World) :
  map ascii_upper p = lit "MOVE " ->
  ascii_digits d = true ->
  parse_reply env current (p ++ d) w = (Ret (MoveArg d), w).
Proof.
  intros Hp Hd.
  destruct (ascii_digits_facts d Hd) as (Hup & Hdig & c0 & r0 & Hd0 & Hc0).
  assert (Hnosp : forall c, In c d -> isspace_char c = false).
  { intros c Hc. destruct d as [|x d']; [contradiction|].
    unfold ascii_digits in Hd.
    pose proof (proj1 (forallb_forall _ _) Hd c Hc) as Hb.
    unfold between in Hb. apply andb_true_iff in Hb.
    rewrite !N.leb_le in Hb. unfold isspace_char, between.
    assert (Hlt : (c < 128)%N) by lia. apply N.ltb_lt in Hlt. rewrite Hlt.
    repeat (apply orb_false_iff; split);
      try (apply andb_false_iff; right; apply N.leb_gt; lia).
    apply N.eqb_neq. lia. }
  destruct p as [|a [|b [|c [|e [|sp [|]]]]]]; try discriminate Hp.
  change (lit "MOVE ") with [77; 79; 86; 69; 32]%N in *.
  simpl in Hp. injection Hp as Ha Hb Hc He Hsp.
  destruct (@ascii_upper_letter a _ Ha) as [Sa La]; [lia|].
  destruct (@ascii_upper_letter b _ Hb) as [Sb Lb]; [lia|].
  destruct (@ascii_upper_letter c _ Hc) as [Sc Lc]; [lia|].
  destruct (@ascii_upper_letter e _ He) as [Se Le]; [lia|].
  apply ascii_upper_blank in Hsp. subst sp.
  assert (Hupper : upper ([a; b; c; e; 32%N] ++ d) = [77; 79; 86; 69; 32]%N ++ d).
  { rewrite upper_app, Hup. f_equal. rewrite upper_ascii.
    - simpl. rewrite Ha, Hb, Hc, He. reflexivity.
    - repeat constructor; auto. }
  assert (Hsplit : split ([a; b; c; e; 32%N] ++ d) = [[a; b; c; e]; d]).
  { unfold split.
    change ([a; b; c; e; 32%N] ++ d) with ([a; b; c; e] ++ 32%N :: d).
    rewrite split_two_words; auto.
    - intros x [<-|[<-|[<-|[<-|[]]]]]; assumption.
    - rewrite Hd0. discriminate.
    - left. discriminate. }
  unfold parse_reply. rewrite Hupper, Hsplit.
  destruct (text_eq_dec _ (lit "QUIT")) as [Heq|_]; [discriminate Heq|].
  assert (Hst : startswith ([77; 79; 86; 69; 32]%N ++ d) (lit "MOVE ") = true)
    by (rewrite Hd0; reflexivity).
  rewrite Hst. unfold malformed. cbn [List.length nth Nat.eqb negb orb]. rewrite Hdig.
  reflexivity.
Qed.

(** X14 -- MOVE, in any letter case, followed by one blank and a run of
    ASCII digits is handled exactly like the digits alone: the same
    move argument reaches the engine and the session does the same
    thing. *)
Theorem move_form_is_bare_form
  (g : game) (current : Conn) (p d : text) (w : World) :
  map ascii_upper p = lit "MOVE " ->
  ascii_digits d = true ->
  reply env p1 p2 g current (p ++ d) w = reply env p1 p2 g current d w.
Proof.
  intros Hp Hd. unfold reply, bind.
  rewrite (@parse_reply_move_form current p d w Hp Hd).
  rewrite parse_reply_digits by exact Hd. reflexivity.
Qed.

(** X20 -- the draw notice is sent without a guard of its own.  When the
    game ends in a draw and the notice cannot be delivered to p1 (whose
    peer name still resolves), the failure is handled like a
    disconnection: p2 is never told of the draw and is sent
    OPPONENT_DISCONNECTED - you win instead; then both sockets are
    closed. *)
Theorem lost_draw_notice_reads_as_disconnect
  (fuel : nat) (g g' : game) (w w1 : World) (m move_arg d : text) :
  ask env p1 p2 g w = (Ret m, w1) ->
  parse_reply env (turn g) m w1 = (Ret (MoveArg move_arg), w1) ->
  make_move g (turn g) move_arg = Moved g' ->
  winner g' = Some (lit "Draw") ->
  (forall t, os_getpeername env t p1 = None) ->
  (forall t, os_sendall env t p2 = None) ->
  os_sendall env (clock w1) p1 = None ->
  os_sendall env (2 + clock w1) p1 = Some d ->
  exists k1 k2 w',
    run env p1 p2 (S fuel) g w = (Ret (Some tt), w') /\
    wire w' =
      wire w1 ++ [Sendall p1 (print_board g' ++ nl) true;
                  Sendall p2 (print_board g' ++ nl) true;
                  Sendall p1 (lit "Game over! It's a draw." ++ nl) false;
                  Sendall p2 (lit "OPPONENT_DISCONNECTED - you win" ++ nl) true;
                  Close p1 k1; Close p2 k2].
Proof.
  intros Hask Hparse Hmove Hwin Hname Hs2 Hboard Hlost.
  change (os_sendall env (S (S (clock w1))) p1 = Some d) in Hlost.
  assert (Hsend2 : forall s x, safe_send env p2 s x =
                     (Ret tt, advance 1 [Sendall p2 s true] x)).
  { intros s x. rewrite safe_send_eq, Hs2. reflexivity. }
  assert (Hplay : play env p1 p2 g (turn g) move_arg w1 =
    (Exc (PlayerDisconnectedError (peername env p1)
            (lit "send failed: " ++ d)),
     advance 4 [Sendall p1 (print_board g' ++ nl) true;
                Sendall p2 (print_board g' ++ nl) true;
                Sendall p1 (lit "Game over! It's a draw." ++ nl) false] w1)).
  { unfold play. rewrite Hmove. unfold bind, broadcast, bind.
    rewrite safe_send_eq, Hboard, Hsend2. unfold announce. rewrite Hwin.
    change (lit "Draw") with (68 :: lit "raw")%N. cbv beta iota zeta.
    destruct (text_eq_dec (68%N :: lit "raw") (68%N :: lit "raw"))
      as [_|Hne]; [|congruence].
    unfold bind, broadcast, bind. rewrite safe_send_eq.
    rewrite advance_advance.
    cbn [clock advance Nat.add]. rewrite Hlost.
    unfold resolved. rewrite Hname. rewrite advance_advance.
    reflexivity. }
  unfold run, bind. cbn [game_loop]. unfold bind.
  erewrite iteration_after_ask by exact Hask.
  unfold try_except, reply, bind. rewrite Hparse, Hplay.
  cbn [handlers]. unfold bind. rewrite notify_remaining_eq, Hname.
  cbv zeta.
  destruct (addr_eq_dec (peername env p1) (peername env p1))
    as [_|Hne]; [|congruence].
  rewrite Hs2. cbv beta iota zeta delta [ret].
  match goal with |- context [close_both env p1 p2 ?x] =>
    destruct (close_both_eq env p1 p2 x) as (k1 & k2 & Hc) end.
  rewrite Hc. exists k1, k2. eexists. split; [reflexivity|].
  rewrite advance_advance. unfold advance. cbn [wire].
  rewrite <- !app_assoc. reflexivity.
Qed.

(** X21 -- unlike the draw notice, the verdict of a won game is sent to
    each player under a guard of its own: once the final board has gone
    out to both, the session ends in that iteration with one verdict
    attempted for p1 and one for p2, and p2 has its verdict whenever it
    can be reached, whatever happens to p1's. *)
Theorem verdicts_are_independent
  (fuel : nat) (g g' : game) (w w1 : World) (m move_arg : text)
  (c : N) (r : text) :
  ask env p1 p2 g w = (Ret m, w1) ->
  parse_reply env (turn g) m w1 = (Ret (MoveArg move_arg), w1) ->
  make_move g (turn g) move_arg = Moved g' ->
  winner g' = Some (c :: r) ->
  c :: r <> lit "Draw" ->
  os_sendall env (clock w1) p1 = None ->
  os_sendall env (S (clock w1)) p2 = None ->
  let told s :=
    if text_eq_dec (symbols g' s) (c :: r) then lit "You win!" ++ nl
    else lit "You lose!" ++ nl in
  exists ok1 ok2 k1 k2 w',
    run env p1 p2 (S fuel) g w = (Ret (Some tt), w') /\
    wire w' =
      wire w1 ++ [Sendall p1 (print_board g' ++ nl) true;
                  Sendall p2 (print_board g' ++ nl) true;
                  Sendall p1 (told p1) ok1;
                  Sendall p2 (told p2) ok2;
                  Close p1 k1; Close p2 k2] /\
    (ok1 = true <-> os_sendall env (2 + clock w1) p1 = None) /\
    ((forall t, os_sendall env t p2 = None) -> ok2 = true).
Proof.
  intros Hask Hparse Hmove Hwin Hnd Hb1 Hb2 told.
  assert (Hverdict : forall s x,
            verdict env g' (c :: r) s x =
            (Ret tt,
             match os_sendall env (clock x) s with
             | None => advance 1 [Sendall s (told s) true] x
             | Some _ => advance 2 [Sendall s (told s) false] x
             end)).
  { intros s x. unfold verdict. subst told. cbv beta.
    destruct (text_eq_dec (symbols g' s) (c :: r));
      apply swallow_safe_send_eq. }
  assert (Hplay : exists ok1 ok2 w2,
    play env p1 p2 g (turn g) move_arg w1 = (Ret (Break, g'), w2) /\
    wire w2 =
      wire w1 ++ [Sendall p1 (print_board g' ++ nl) true;
                  Sendall p2 (print_board g' ++ nl) true;
                  Sendall p1 (told p1) ok1;
                  Sendall p2 (told p2) ok2] /\
    (ok1 = true <-> os_sendall env (2 + clock w1) p1 = None) /\
    ((forall t, os_sendall env t p2 = None) -> ok2 = true)).
  { change (2 + clock w1) with (S (S (clock w1))).
    unfold play. rewrite Hmove. unfold bind, broadcast, bind.
    rewrite safe_send_eq, Hb1, safe_send_eq.
    cbn [clock advance Nat.add]. rewrite Hb2.
    unfold announce. rewrite Hwin. cbv beta iota zeta.
    destruct (text_eq_dec (c :: r) (lit "Draw")) as [Hd|_]; [contradiction|].
    unfold bind. rewrite Hverdict. cbv beta iota zeta. rewrite Hverdict.
    cbn [clock advance Nat.add].
    destruct (os_sendall env (S (S (clock w1))) p1) eqn:H1;
      cbn [clock advance Nat.add];
      match goal with |- context [os_sendall env ?t p2] =>
        destruct (os_sendall env t p2) eqn:H2 end;
      cbv [ret]; do 3 eexists;
      (split; [reflexivity|]);
      (split; [unfold advance; cbn [wire]; rewrite <- !app_assoc;
               reflexivity|]);
      (split; [split; congruence|]);
      intros Hall; try reflexivity; rewrite Hall in H2; discriminate. }
  destruct Hplay as (ok1 & ok2 & w2 & Hplay & Hwire & Hok1 & Hok2).
  unfold run, bind. cbn [game_loop]. unfold bind.
  erewrite iteration_after_ask by exact Hask.
  unfold try_except, reply, bind. rewrite Hparse, Hplay.
  cbv beta iota zeta delta [ret].
  destruct (close_both_eq env p1 p2 w2) as (k1 & k2 & Hc).
  rewrite Hc. exists ok1, ok2, k1, k2. eexists.
  split; [reflexivity|]. split; [|split; assumption].
  cbn [wire]. rewrite Hwire, <- app_assoc. reflexivity.
Qed.

(** X23 -- InvalidMessageError is built from an unguarded
    [current.getpeername()].  When a malformed MOVE line arrives from a
    player whose peer name can no longer be resolved, no
    InvalidMessageError is raised and the loop does not go on: the
    lookup's own error ends the session, with Server error and that
    cause attempted to p1 and to p2 before both sockets are closed. *)
Theorem malformed_move_from_lost_peer_ends_session
  (fuel : nat) (g : game) (w w1 : World) (m d : text) :
  ask env p1 p2 g w = (Ret m, w1) ->
  upper m <> lit "QUIT" ->
  startswith (upper m) (lit "MOVE ") = true ->
  malformed (split m) = true ->
  os_getpeername env (clock w1) (turn g) = Some d ->
  fst (reply env p1 p2 g (turn g) m w1) = Exc (OtherError d) /\
  exists ok1 ok2 k1 k2 w',
    run env p1 p2 (S fuel) g w = (Ret (Some tt), w') /\
    wire w' =
      wire w1 ++ [Sendall p1 (lit "Server error: " ++ d ++ nl) ok1;
                  Sendall p2 (lit "Server error: " ++ d ++ nl) ok2;
                  Close p1 k1; Close p2 k2].
Proof.
  intros Hask Hq Hmove Hbad Hname.
  assert (Hreply : reply env p1 p2 g (turn g) m w1 =
                   (Exc (OtherError d), advance 1 [] w1)).
  { unfold reply, parse_reply, bind.
    destruct (text_eq_dec (upper m) (lit "QUIT")) as [Heq|_];
      [contradiction|].
    rewrite Hmove. cbv zeta. rewrite Hbad. unfold bind.
    rewrite getpeername_eq, Hname. reflexivity. }
  split; [rewrite Hreply; reflexivity|].
  unfold run, bind. cbn [game_loop]. unfold bind.
  erewrite iteration_after_ask by exact Hask.
  unfold try_except. rewrite Hreply.
  unfold handlers, bind. rewrite !swallow_safe_send_eq. cbv [ret str_exn].
  match goal with |- context [close_both env p1 p2 ?x] =>
    destruct (close_both_eq env p1 p2 x) as (k1 & k2 & Hc) end.
  rewrite Hc. clear Hc.
  cbn [clock advance Nat.add].
  destruct (os_sendall env (S (clock w1)) p1);
    cbn [clock advance Nat.add];
    match goal with |- context [os_sendall env ?t p2] =>
      destruct (os_sendall env t p2) end;
    do 2 eexists; exists k1, k2; eexists;
    (split; [reflexivity|]);
    unfold advance; cbn [wire]; rewrite <- !app_assoc; reflexivity.
Qed.

End SessionEdges.

(** ** What a session writes *)

Lemma sends_only_ret {A} (a : A) : sends_only (ret a).
Proof. intros w. exists []. rewrite app_nil_r. repeat split. constructor. Qed.

Lemma sends_only_raise {A} (e : exn) : sends_only (@raise A e).
Proof. intros w. exists []. rewrite app_nil_r. repeat split. constructor. Qed.

Lemma sends_only_tick : sends_only tick.
Proof. intros w. exists []. simpl. rewrite app_nil_r. repeat split. constructor. Qed.

Lemma sends_only_set_deadline (c : Conn) (v : option Z) :
  sends_only (set_deadline c v).
Proof. intros w. exists []. simpl. rewrite app_nil_r. repeat split. constructor. Qed.

Lemma sends_only_emit (c : Conn) (s : text) (ok : bool) :
  sends_only (emit (Sendall c s ok)).
Proof.
  intros w. exists [Sendall c s ok]. simpl. repeat split.
  repeat constructor.
Qed.

Lemma sends_only_bind {A B} (m : M A) (k : A -> M B) :
  sends_only m -> (forall a, sends_only (k a)) -> sends_only (bind m k).
Proof.
  intros Hm Hk w. unfold bind. destruct (Hm w) as (e1 & Hw & Hs & Hc & Hq).
  destruct (m w) as [[a|e] w1]; cbn [snd] in *; [|eauto].
  destruct (Hk a w1) as (e2 & Hw2 & Hs2 & Hc2 & Hq2).
  exists (e1 ++ e2). rewrite Hw2, Hw, Hc2, Hc, Hq2, Hq, app_assoc.
  repeat split. apply Forall_app. auto.
Qed.

Lemma sends_only_try_except {A} (m : M A) (h : exn -> M A) :
  sends_only m -> (forall e, sends_only (h e)) -> sends_only (try_except m h).
Proof.
  intros Hm Hh w. unfold try_except.
  destruct (Hm w) as (e1 & Hw & Hs & Hc & Hq).
  destruct (m w) as [[a|e] w1]; cbn [snd] in *; [eauto|].
  destruct (Hh e w1) as (e2 & Hw2 & Hs2 & Hc2 & Hq2).
  exists (e1 ++ e2). rewrite Hw2, Hw, Hc2, Hc, Hq2, Hq, app_assoc.
  repeat split. apply Forall_app. auto.
Qed.

Lemma sends_only_try_finally {A} (m : M A) (f : M unit) :
  sends_only m -> sends_only f -> sends_only (try_finally m f).
Proof.
  intros Hm Hf w. unfold try_finally.
  destruct (Hm w) as (e1 & Hw & Hs & Hc & Hq).
  destruct (m w) as [r w1]; cbn [snd] in *.
  destruct (Hf w1) as (e2 & Hw2 & Hs2 & Hc2 & Hq2).
  exists (e1 ++ e2).
  destruct (f w1) as [[[]|e] w2]; cbn [snd] in *;
    rewrite Hw2, Hw, Hc2, Hc, Hq2, Hq, app_assoc;
    repeat split; apply Forall_app; auto.
Qed.

(** Take the body of the loop apart down to its writes. *)
Ltac only_sends :=
  repeat first
    [ apply sends_only_ret | apply sends_only_raise | apply sends_only_tick
    | apply sends_only_emit | apply sends_only_set_deadline
    | apply sends_only_bind | apply sends_only_try_except
    | apply sends_only_try_finally
    | match goal with
      | |- forall _, _ => intro
      | |- sends_only (match ?x with _ => _ end) => destruct x
      end
    | progress cbv beta zeta
    | progress unfold swallow, getpeername, sendall, settimeout, recv,
        decode, addr_or_unknown, safe_send, recv_with_timeout, broadcast,
        parse_reply, verdict, announce, play, reply, ask, body,
        notify_remaining, handlers, iteration ].

Section SessionWire.
Context {U : Unicode} {E : Engine}.
Variable env : Env.
Variables p1 p2 : Conn.

Lemma sends_only_iteration (g : game) : sends_only (iteration env p1 p2 g).
Proof. only_sends. Qed.

Lemma sends_only_game_loop (fuel : nat) (g : game) :
  sends_only (game_loop env p1 p2 fuel g).
Proof.
  revert g. induction fuel as [|n IH]; intros g; cbn [game_loop].
  - apply sends_only_ret.
  - apply sends_only_bind; [apply sends_only_iteration|].
    intros [[] g']; [apply IH|apply sends_only_ret].
Qed.

(** The greeting writes with [sendall] only and, when it fails, closes
    both sockets at once. *)
Lemma greet_wire (g : game) (w : World) :
  (exists evs w1,
     greet env p1 p2 g w = (Ret true, w1) /\
     wire w1 = wire w ++ evs /\ Forall is_sendall evs /\
     closed w1 = closed w /\ clients_waiting w1 = clients_waiting w) \/
  (exists evs x,
     greet env p1 p2 g w = (Ret false, snd (close_both env p1 p2 x)) /\
     wire x = wire w ++ evs /\ Forall is_sendall evs /\
     closed x = closed w /\ clients_waiting x = clients_waiting w).
Proof.
  unfold greet, try_except, bind. rewrite safe_send_eq.
  destruct (os_sendall env (clock w) p1).
  - right.
    match goal with |- context [close_both env p1 p2 ?x] =>
      destruct (close_both_eq env p1 p2 x) as (k1 & k2 & Heq);
      exists [Sendall p1 (lit "Game start! You are " ++ symbols g p1 ++ nl)
                false], x end.
    rewrite Heq. cbv [ret]. cbn [snd wire closed clients_waiting advance].
    repeat split. repeat constructor.
  - rewrite safe_send_eq. cbn [clock advance Nat.add].
    destruct (os_sendall env (S (clock w)) p2).
    + right.
      match goal with |- context [close_both env p1 p2 ?x] =>
        destruct (close_both_eq env p1 p2 x) as (k1 & k2 & Heq);
        exists [Sendall p1 (lit "Game start! You are " ++ symbols g p1 ++ nl)
                  true;
                Sendall p2 (lit "Game start! You are " ++ symbols g p2 ++ nl)
                  false], x end.
      rewrite Heq. cbv [ret]. cbn [snd wire closed clients_waiting advance].
      repeat split; try (rewrite <- app_assoc; reflexivity).
      repeat constructor.
    + left. cbv [ret]. do 2 eexists. split; [reflexivity|].
      cbn [wire closed clients_waiting advance].
      repeat split; try (rewrite <- app_assoc; reflexivity).
      repeat constructor.
Qed.

(** X15 -- a session that has returned wrote to the network with
    [sendall] only, then closed p1 and p2, once each and in that order,
    and did nothing after that; it never touched the waiting list or the
    closed flag of any other socket. *)
Theorem session_sends_then_closes (fuel : nat) (w w' : World) :
  handle_game env p1 p2 fuel w = (Ret (Some tt), w') ->
  exists sends k1 k2,
    wire w' = wire w ++ sends ++ [Close p1 k1; Close p2 k2] /\
    Forall is_sendall sends /\
    clients_waiting w' = clients_waiting w /\
    forall c, c <> p1 -> c <> p2 -> closed w' c = closed w c.
Proof.
  assert (Hclose : forall x evs,
      wire x = wire w ++ evs -> Forall is_sendall evs ->
      closed x = closed w -> clients_waiting x = clients_waiting w ->
      exists sends k1 k2,
        wire (snd (close_both env p1 p2 x)) =
          wire w ++ sends ++ [Close p1 k1; Close p2 k2] /\
        Forall is_sendall sends /\
        clients_waiting (snd (close_both env p1 p2 x)) = clients_waiting w /\
        forall c, c <> p1 -> c <> p2 ->
                  closed (snd (close_both env p1 p2 x)) c = closed w c).
  { intros x evs Hw Hs Hc Hq.
    destruct (close_both_eq env p1 p2 x) as (k1 & k2 & Heq).
    rewrite Heq. exists evs, k1, k2. cbn [snd wire clients_waiting closed].
    rewrite Hw, Hc, Hq, <- app_assoc. repeat split; auto.
    intros c H1 H2. unfold upd.
    destruct (Nat.eqb_spec c p2); [contradiction|].
    destruct (Nat.eqb_spec c p1); [contradiction|]. reflexivity. }
  unfold handle_game, bind.
  destruct (greet_wire (TicTacToe p1 p2) w)
    as [(e1 & w1 & Hg & Hw1 & Hs1 & Hc1 & Hq1)
       | (e1 & x & Hg & Hw1 & Hs1 & Hc1 & Hq1)]; rewrite Hg.
  - unfold run, bind.
    destruct (sends_only_game_loop fuel (TicTacToe p1 p2) w1)
      as (e2 & Hw2 & Hs2 & Hc2 & Hq2).
    destruct (game_loop env p1 p2 fuel (TicTacToe p1 p2) w1)
      as [[[[]|]|e] w2]; cbn [snd] in *; try discriminate.
    destruct (close_both_eq env p1 p2 w2) as (k1 & k2 & Heq).
    pose proof (Hclose w2 (e1 ++ e2)) as Hfin. rewrite Heq in *.
    cbv [ret]. intros H. injection H as <-. apply Hfin.
    + rewrite Hw2, Hw1, app_assoc. reflexivity.
    + apply Forall_app. auto.
    + congruence.
    + congruence.
  - cbv [ret]. intros H. injection H as <-. apply (Hclose x e1); auto.
Qed.

End SessionWire.

(** ** Workers and the waiting list *)

Section Workers.
Variable env : Env.

(** X16 -- [client_thread] lets an exception escape only when the welcome
    fails and the [conn.close()] that follows fails too (unlike
    [handle_game], it closes outside any [try]); even then the
    connection is marked closed and is not put on the waiting list. *)
Theorem client_thread_raises_only_on_failed_close (conn : Conn) (w : World) :
  ((exists e, fst (client_thread env conn w) = Exc e) <->
   (os_sendall env (clock w) conn <> None /\
    os_close env (S (clock w)) conn <> None)) /\
  (os_sendall env (clock w) conn <> None ->
   closed (snd (client_thread env conn w)) conn = true /\
   clients_waiting (snd (client_thread env conn w)) = clients_waiting w).
Proof.
  rewrite client_thread_eq.
  destruct (os_sendall env (clock w) conn) as [d|] eqn:Hs.
  - cbv zeta. cbn [fst snd closed clients_waiting]. split.
    + destruct (os_close env (S (clock w)) conn) as [d'|]; split.
      * intros _. split; discriminate.
      * intros _. eauto.
      * intros (e & He). discriminate.
      * intros (_ & Hc). contradiction.
    + intros _. rewrite upd_same. split; reflexivity.
  - rewrite offer_eq. cbn [fst]. split.
    + split.
      * intros (e & He). discriminate.
      * intros (Hc & _). contradiction.
    + intros Hc. contradiction.
Qed.

(** X17 -- when every welcome goes out, the workers pair the connections
    strictly in the order in which they take the lock: the connections
    handed to sessions so far, followed by those still waiting, are the
    earlier ones followed by the arrivals, and nobody is dropped. *)
Theorem served_in_arrival_order (conns : list Conn) (w : World) :
  (forall t c, os_sendall env t c = None) ->
  started (wire (snd (serve env conns w)))
  ++ clients_waiting (snd (serve env conns w))
  = started (wire w) ++ clients_waiting w ++ conns.
Proof.
  intros Hsend. revert w. induction conns as [|c rest IH]; intros w.
  - simpl. rewrite app_nil_r. reflexivity.
  - cbn [serve]. unfold bind, try_except.
    rewrite client_thread_eq, Hsend.
    pose proof (offer_order c (advance 1 [Send c welcome true] w)) as Ho.
    cbv zeta in Ho. rewrite offer_eq in *. cbn [snd] in Ho. cbv [ret].
    rewrite IH, app_assoc, Ho. unfold advance.
    cbn [wire clients_waiting]. rewrite started_app. simpl.
    rewrite app_nil_r, <- !app_assoc. reflexivity.
Qed.

(** X22 -- between two workers the waiting list never holds a pair:
    starting from at most one waiting connection, any run of workers,
    whatever their sends and closes do, leaves at most one waiting. *)
Theorem never_two_left_waiting (conns : list Conn) (w : World) :
  List.length (clients_waiting w) <= 1 ->
  List.length (clients_waiting (snd (serve env conns w))) <= 1.
Proof.
  revert w. induction conns as [|c rest IH]; intros w Hw; [exact Hw|].
  simpl. unfold bind, try_except. rewrite client_thread_eq.
  destruct (os_sendall env (clock w) c).
  - cbv zeta. destruct (os_close env (S (clock w)) c); cbv [ret];
      apply IH; exact Hw.
  - rewrite offer_eq. apply IH. unfold advance.
    cbn [clients_waiting].
    destruct (clients_waiting w) as [|a [|b q]]; simpl in *; lia.
Qed.

End Workers.

(** ** The further properties on concrete inputs *)

Lemma calm_calls_succeed (script : nat -> Conn -> Incoming) :
  all_calls_succeed (calm script).
Proof. intros t c. repeat split. Qed.

Lemma recv_with_timeout_raises_transport_only_witness :
  transport_failure
    (TimeoutWaitingPlayerError (sample_peer 1)
       (lit "Timed out after 30 seconds")) /\
  wire (snd (recv_with_timeout silent 1 30 world0)) = [].
Proof.
  destruct (@recv_with_timeout_raises_transport_only silent sample_unicode
              1 30%Z world0) as (Hexc & Hwire & _).
  split; [|exact Hwire]. apply Hexc. vm_compute. reflexivity.
Defined.

Lemma recv_with_timeout_returns_trimmed_witness :
  (exists data,
     os_recv (answering (bytes_of "  quit ")) 1 1 = Bytes data /\
     data <> []) /\
  isspace_char 113 = false /\ isspace_char 116 = false.
Proof.
  destruct (@recv_with_timeout_returns_trimmed
              (answering (bytes_of "  quit ")) sample_unicode 1 30%Z world0
              (lit "quit")) as (Hread & Hfirst & Hlast).
  - vm_compute. reflexivity.
  - split; [exact Hread|]. split.
    + apply (Hfirst 113%N (lit "uit")). reflexivity.
    + apply (Hlast (lit "qui") 116%N). reflexivity.
Defined.

Lemma recv_with_timeout_negative_bound_witness :
  fst (recv_with_timeout (answering (bytes_of "4")) 1 (-1) world0) =
  Exc (PlayerDisconnectedError (sample_peer 1)
         (lit "recv failed: Timeout value out of range")).
Proof.
  apply (@recv_with_timeout_negative_bound
           (answering (bytes_of "4")) sample_unicode 1 (-1)%Z world0).
  reflexivity.
Defined.

Lemma silent_player_loses_witness :
  exists w',
    run silent 1 2 1 g0 world0 = (Ret (Some tt), w') /\
    In (Sendall 2 (lit "OPPONENT_TIMEOUT - you win" ++ nl) true) (wire w').
Proof.
  destruct (@silent_player_loses sample_unicode sample_engine silent 1 2
              (calm_calls_succeed _) 0 g0 world0) as (w' & Hrun & Hwire).
  - vm_compute. discriminate.
  - left. reflexivity.
  - reflexivity.
  - exists w'. split; [exact Hrun|]. rewrite Hwire.
    vm_compute. tauto.
Defined.

Lemma departed_player_loses_witness :
  exists w',
    run departed 1 2 1 g0 world0 = (Ret (Some tt), w') /\
    In (Sendall 2 (lit "OPPONENT_DISCONNECTED - you win" ++ nl) true)
       (wire w').
Proof.
  destruct (@departed_player_loses sample_unicode sample_engine departed 1 2
              (calm_calls_succeed _) 0 g0 world0) as (w' & Hrun & Hwire).
  - vm_compute. discriminate.
  - left. reflexivity.
  - reflexivity.
  - exists w'. split; [exact Hrun|]. rewrite Hwire.
    vm_compute. tauto.
Defined.

Lemma malformed_input_never_ends_session_witness :
  fst (handle_game (answering (bytes_of "hello")) 1 2 100 world0) = Ret None.
Proof.
  apply (@malformed_input_never_ends_session sample_unicode sample_engine
           (answering (bytes_of "hello")) 1 2 (calm_calls_succeed _)
           (bytes_of "hello") (lit "hello")).
  - reflexivity.
  - discriminate.
  - reflexivity.
  - vm_compute. discriminate.
  - reflexivity.
  - reflexivity.
Defined.

Lemma blank_reply_is_a_format_error_witness :
  exists w',
    iteration (answering [32; 13; 10]%N) 1 2 g0 world0
      = (Ret (Continue, g0), w') /\
    wire w' =
      opening 1 2 g0 ++ [Sendall 1 (lit "Invalid move format: " ++ nl) true].
Proof.
  apply (@blank_reply_is_a_format_error sample_unicode sample_engine
           (answering [32; 13; 10]%N) 1 2 (calm_calls_succeed _) g0 world0
           [32; 13; 10]%N).
  - reflexivity.
  - discriminate.
  - reflexivity.
Defined.

Lemma illegal_move_reprompts_witness :
  exists w2,
    iteration (answering (bytes_of "42")) 1 2 g0 world0
      = (Ret (Continue, g0), w2) /\
    wire (snd (ask (answering (bytes_of "42")) 1 2 g0 w2))
      = wire w2 ++ opening 1 2 g0.
Proof.
  edestruct (@illegal_move_reprompts sample_unicode sample_engine
               (answering (bytes_of "42")) 1 2 (calm_calls_succeed _)
               g0 g0 world0) as (w2 & Hit & _ & Hnext).
  - vm_compute. reflexivity.
  - vm_compute. reflexivity.
  - vm_compute. reflexivity.
  - exists w2. split; assumption.
Defined.

Lemma unrecognised_player_ends_session_witness :
  exists w',
    run (answering (bytes_of "0")) 1 2 1 stranger_turn world0
      = (Ret (Some tt), w') /\
    In (Sendall 3 (lit "ERROR: Player not recognized: Unknown player" ++ nl)
          true) (wire w').
Proof.
  edestruct (@unrecognised_player_ends_session sample_unicode sample_engine
               (answering (bytes_of "0")) 1 2 (calm_calls_succeed _) 0
               stranger_turn stranger_turn world0) as (w' & Hrun & Hwire).
  - vm_compute. reflexivity.
  - vm_compute. reflexivity.
  - vm_compute. reflexivity.
  - exists w'. split; [exact Hrun|]. rewrite Hwire.
    apply in_or_app. right. left. reflexivity.
Defined.

Lemma failed_greeting_ends_session_witness :
  exists k1 k2 w',
    handle_game first_send_fails 1 2 7 world0 = (Ret (Some tt), w') /\
    wire w' = [Sendall 1 (lit "Game start! You are X" ++ nl) false;
               Close 1 k1; Close 2 k2].
Proof.
  apply (@failed_greeting_ends_session sample_unicode sample_engine
           first_send_fails 1 2 7 world0).
  vm_compute. discriminate.
Defined.

Lemma game_over_is_announced_best_effort_witness :
  exists w',
    run (answering (bytes_of "5")) 1 2 1 top_row_won world0
      = (Ret (Some tt), w') /\
    In (Sendall 2 (lit "GAME OVER: The game is already over" ++ nl) true)
       (wire w').
Proof.
  edestruct (@game_over_is_announced_best_effort sample_unicode sample_engine
               (answering (bytes_of "5")) 1 2 0 top_row_won top_row_won
               world0) as (w' & Hrun & _ & _ & Hsent).
  - vm_compute. reflexivity.
  - vm_compute. reflexivity.
  - vm_compute. reflexivity.
  - exists w'. split; [exact Hrun|].
    apply (Hsent 2); [right; reflexivity|reflexivity].
Defined.

Lemma unexpected_failure_reports_server_error_witness :
  exists w',
    run quit_then_reset 1 2 1 g0 world0 = (Ret (Some tt), w') /\
    In (Sendall 2
          (lit "Server error: [Errno 107] Transport endpoint is not connected"
           ++ nl) true) (wire w').
Proof.
  edestruct (@unexpected_failure_reports_server_error sample_unicode
               sample_engine quit_then_reset 1 2 0 g0 world0)
    as (ok1 & ok2 & k1 & k2 & w' & Hrun & Hwire & _ & Hok2).
  - vm_compute. reflexivity.
  - exists w'. split; [exact Hrun|]. rewrite Hwire, Hok2; [|reflexivity].
    apply in_or_app. right. right. left. reflexivity.
Defined.

Lemma move_form_is_bare_form_witness :
  reply silent 1 2 g0 1 (lit "Move 4") world0
  = reply silent 1 2 g0 1 (lit "4") world0.
Proof.
  apply (@move_form_is_bare_form sample_unicode sample_engine silent 1 2 g0 1
           (lit "Move ") (lit "4") world0); reflexivity.
Defined.

Lemma session_sends_then_closes_witness :
  exists sends k1 k2,
    wire (snd (handle_game silent 1 2 1 world0))
      = sends ++ [Close 1 k1; Close 2 k2] /\
    Forall is_sendall sends.
Proof.
  destruct (@session_sends_then_closes sample_unicode sample_engine silent
              1 2 1 world0 (snd (handle_game silent 1 2 1 world0)))
    as (sends & k1 & k2 & Hwire & Hall & _).
  - vm_compute. reflexivity.
  - exists sends, k1, k2. split; [exact Hwire|exact Hall].
Defined.

Lemma client_thread_raises_only_on_failed_close_witness :
  (exists e, fst (client_thread send_and_close_fail 4 world0) = Exc e) /\
  closed (snd (client_thread send_and_close_fail 4 world0)) 4 = true /\
  clients_waiting (snd (client_thread send_and_close_fail 4 world0)) = [].
Proof.
  destruct (client_thread_raises_only_on_failed_close send_and_close_fail 4
              world0) as (Hiff & Hclosed).
  split.
  - apply Hiff. split; discriminate.
  - apply Hclosed. discriminate.
Defined.

Lemma served_in_arrival_order_witness :
  started (wire (snd (serve silent [5; 6; 7] world0)))
  ++ clients_waiting (snd (serve silent [5; 6; 7] world0)) = [5; 6; 7].
Proof.
  apply (@served_in_arrival_order silent [5; 6; 7] world0). reflexivity.
Defined.

Lemma handle_game_returns_when_silent_witness :
  exists w',
    handle_game silent 1 2 1 world0 = (Ret (Some tt), w') /\
    closed w' 1 = true /\ closed w' 2 = true.
Proof.
  apply (@handle_game_returns_when_silent sample_unicode sample_engine silent
           1 2 0 world0).
  reflexivity.
Defined.

Lemma accepted_move_shows_board_twice_witness :
  exists g' w2,
    iteration (answering (bytes_of "4")) 1 2 g0 world0
      = (Ret (Continue, g'), w2) /\
    wire (snd (ask (answering (bytes_of "4")) 1 2 g' w2))
      = wire w2 ++ opening 1 2 g'.
Proof.
  edestruct (@accepted_move_shows_board_twice sample_unicode sample_engine
               (answering (bytes_of "4")) 1 2 (calm_calls_succeed _) g0
               (mkTtt 1 2 (ttt_put (repeat None 9) 4 true) 2 None) world0)
    as (w2 & Hit & _ & Hnext).
  - vm_compute. reflexivity.
  - vm_compute. reflexivity.
  - vm_compute. reflexivity.
  - left. reflexivity.
  - eexists. exists w2. split; [exact Hit|exact Hnext].
Defined.

Lemma lost_draw_notice_reads_as_disconnect_witness :
  exists w',
    run (fading (bytes_of "8")) 1 2 1 draw_open world0
      = (Ret (Some tt), w') /\
    In (Sendall 2 (lit "OPPONENT_DISCONNECTED - you win" ++ nl) true)
       (wire w').
Proof.
  edestruct (@lost_draw_notice_reads_as_disconnect sample_unicode
               sample_engine (fading (bytes_of "8")) 1 2 0 draw_open
               (mkTtt 1 2 (ttt_put (t_cells draw_open) 8 true) 2
                  (Some (lit "Draw")))
               world0)
    as (k1 & k2 & w' & Hrun & Hwire).
  - vm_compute. reflexivity.
  - vm_compute. reflexivity.
  - vm_compute. reflexivity.
  - vm_compute. reflexivity.
  - intros t. reflexivity.
  - intros t. reflexivity.
  - reflexivity.
  - vm_compute. reflexivity.
  - exists w'. split; [exact Hrun|]. rewrite Hwire.
    apply in_or_app. right. do 3 right. left. reflexivity.
Defined.

Lemma verdicts_are_independent_witness :
  exists w',
    run (fading (bytes_of "2")) 1 2 1 top_row_open world0
      = (Ret (Some tt), w') /\
    In (Sendall 1 (lit "You win!" ++ nl) false) (wire w') /\
    In (Sendall 2 (lit "You lose!" ++ nl) true) (wire w').
Proof.
  edestruct (@verdicts_are_independent sample_unicode sample_engine
               (fading (bytes_of "2")) 1 2 0 top_row_open
               (mkTtt 1 2 (ttt_put (t_cells top_row_open) 2 true) 2
                  (Some (lit "X")))
               world0)
    as (ok1 & ok2 & k1 & k2 & w' & Hrun & Hwire & Hok1 & Hok2).
  - vm_compute. reflexivity.
  - vm_compute. reflexivity.
  - vm_compute. reflexivity.
  - vm_compute. reflexivity.
  - vm_compute. discriminate.
  - reflexivity.
  - reflexivity.
  - exists w'. split; [exact Hrun|]. rewrite Hwire.
    rewrite Hok2 by (intros t; reflexivity).
    destruct ok1; [destruct Hok1 as [Hok1 _]; discriminate (Hok1 eq_refl)|].
    split; apply in_or_app; right; vm_compute; tauto.
Defined.

Lemma never_two_left_waiting_witness :
  List.length (clients_waiting (snd (serve first_send_fails [5; 6; 7; 8] world0)))
  <= 1.
Proof.
  apply (@never_two_left_waiting first_send_fails [5; 6; 7; 8] world0).
  simpl. lia.
Defined.

Lemma malformed_move_from_lost_peer_ends_session_witness :
  exists ok2 w',
    run garbled_then_reset 1 2 1 g0 world0 = (Ret (Some tt), w') /\
    In (Sendall 2
          (lit "Server error: [Errno 107] Transport endpoint is not connected"
           ++ nl) ok2) (wire w').
Proof.
  edestruct (@malformed_move_from_lost_peer_ends_session sample_unicode
               sample_engine garbled_then_reset 1 2 0 g0 world0)
    as (_ & ok1 & ok2 & k1 & k2 & w' & Hrun & Hwire).
  - vm_compute. reflexivity.
  - vm_compute. discriminate.
  - vm_compute. reflexivity.
  - vm_compute. reflexivity.
  - vm_compute. reflexivity.
  - exists ok2, w'. split; [exact Hrun|].
    rewrite Hwire. apply in_or_app. right. right. left. reflexivity.
Defined.
